(** * FoodDetails: state, handlers and pricing of the food-details screen

    A shallow embedding of [src/pages/FoodDetails/index.tsx].

    Conventions of the embedding.
    - The four [useState] cells [food], [extras], [isFavorite] and
      [foodQuantity] are the fields of one [State] record; a handler is a
      function on that record and is run against the state of the latest
      render.
    - Objects have identity.  The elements of the [extras] array are
      references into a [heap], because the handlers change them in place
      with [Object.assign]; [food.extras] holds references too.
    - A JavaScript [number] that holds money ([price], [value], the cart
      total) is an IEEE 754 binary64 value, Rocq's primitive [float].  A
      [number] that is a counter ([quantity], [foodQuantity]) is a [Z]: it
      starts from an integer literal and only moves by [+ 1] and [- 1],
      which binary64 performs exactly for magnitudes up to 2^53.
      [number_of_Z] is the binary64 value the counter stands for where the
      code multiplies it with money.  An [id] is a [Z] too: ids are the
      integers the server hands out.  They are only compared and printed,
      and the embedding is exact for the ids with [safe_integer], magnitude
      up to 2^53, which binary64 holds one by one and a template literal
      prints digit by digit; larger or fractional ids are outside it.
    - [undefined] is [None]; the initial [food], written [{} as Food] in the
      source, is the object without any field, so every field read of it is
      [None].
    - The modules behind the imports [api] and [formatValue] are outside
      this development.  What a request resolves to is an argument
      ([Outcome]) of the code that awaits it; [formatValue] is a parameter. *)

From Stdlib Require Import ZArith String Floats DecimalString.
From Stdlib Require DecimalPos DecimalZ.
From stdpp Require Import base gmap list strings.

Local Open Scope Z_scope.

(** ** Numbers and template literals *)

(** The binary64 value nearest to an integer (round to nearest, ties to
    even); exact when [|z| <= 2^53]. *)
Definition number_of_Z (z : Z) : float :=
  SF2Prim (binary_normalize prec emax z 0 false).

(** [ToNumber] of a possibly absent number: [undefined] converts to [NaN]. *)
Definition ToNumber (v : option float) : float :=
  match v with
  | Some x => x
  | None => nan
  end.

(** [a + b] where [a] is a number and [b] a number or [undefined]. *)
Definition js_plus (a : float) (b : option float) : float :=
  (a + ToNumber b)%float.

(** The integers the embedding prints as the code does. *)
Definition safe_integer (n : Z) : Prop := - 2 ^ 53 ≤ n ≤ 2 ^ 53.

(** [`${n}`] for an integer [n] with [safe_integer n]: its decimal digits,
    with a minus sign when it is negative.  (The code prints a binary64
    number; from 2^53 on that number need not be the integer, and from
    10^21 on it is printed with an exponent.) *)
Definition template_number (n : Z) : string :=
  NilZero.string_of_int (Z.to_int n).

(** [`${v}`] for a number or [undefined]. *)
Definition template (v : option Z) : string :=
  match v with
  | Some n => template_number n
  | None => "undefined"
  end.

(** ** Data model *)

(** Identity of a heap-allocated object. *)
Definition ref := positive.

Module Params.
Record t := mk { id : Z }.
End Params.

Module Extra.
Record t := mk {
  id : Z;
  name : string;
  value : float;
  quantity : Z
}.

(** The object [{ ...extra, quantity: q }], also what
    [Object.assign(extra, { quantity: q })] leaves in [extra]. *)
Definition with_quantity (q : Z) (extra : t) : t :=
  {| id := id extra; name := name extra; value := value extra;
     quantity := q |}.
End Extra.

Module Food.
Record t := mk {
  id : Z;
  name : string;
  description : string;
  price : float;
  image_url : string;
  formattedPrice : string;
  extras : list ref
}.
End Food.

(** The heap of [Extra] objects. *)
Abbreviation Heap := (gmap ref Extra.t).

(** What the server sends for a food: the record before [formattedPrice] is
    added, its extras still plain JSON. *)
Module FoodJson.
Record t := mk {
  id : Z;
  name : string;
  description : string;
  price : float;
  image_url : string;
  extras : list Extra.t
}.
End FoodJson.

(** The [data] of a response: [null] (or [undefined]), or a food record as
    the interface [Food] declares it, with its [extras] array.  A body of
    another shape, such as an empty string or an object without [extras], is
    not covered: on it the code sets [food] and then fails on
    [data.extras.map]. *)
Inductive Data :=
| NoData
| FoodData (d : FoodJson.t).

(** The value an [api] call resolves to.  It is an object with a [data]
    property: [loadFood] destructures [{ data }] from it. *)
Record Response := mkResponse { data : Data }.

(** How the promise of a request settles. *)
Inductive Outcome :=
| Resolved (response : Response)
| Rejected.

(** [ToBoolean], the test an [if] applies to its condition. *)
Class Truthy (A : Type) := truthy : A → bool.
#[global] Instance truthy_bool : Truthy bool := λ b, b.
(** Every object converts to [true], whatever its properties hold. *)
#[global] Instance truthy_Response : Truthy Response := λ _, true.

(** The component's state: the four [useState] cells and the heap their
    object references point into. *)
Record State := mkState {
  heap : Heap;
  food : option Food.t;
  extras : list ref;
  isFavorite : bool;
  foodQuantity : Z
}.

(** The arguments of the four [useState] calls; [None] is [{} as Food]. *)
Definition initial : State :=
  {| heap := ∅; food := None; extras := []; isFavorite := false;
     foodQuantity := 1 |}.

(** ** Effects *)

(** A property value of an object literal. *)
Inductive Value :=
| Undefined
| Num (n : Z)
| Money (x : float)
| Text (s : string)
| Array (elements : list ref).

Definition of_undefined {A} (inj : A → Value) (v : option A) : Value :=
  match v with
  | Some a => inj a
  | None => Undefined
  end.

(** An object literal: its properties in the order they are written. *)
Abbreviation Literal := (list (string * Value)).

(** [o[key]]: the value of the property [key], if [o] has that property. *)
Fixpoint property (key : string) (o : Literal) : option Value :=
  match o with
  | [] => None
  | (k, v) :: o' => if String.eqb k key then Some v else property key o'
  end.

Inductive Body :=
| FoodBody (food : option Food.t)
| LiteralBody (properties : Literal).

Inductive Request :=
| GET (url : string)
| DELETE (url : string)
| POST (url : string) (body : Body).

(** Who waits for a request to settle.  [loadFood] and [loadFavorite]
    [await] theirs; the promises of [toggleFavorite] and [handleFinishOrder]
    are dropped. *)
Inductive Awaiter :=
| LoadFood
| LoadFavorite
| Nobody.

Inductive Effect :=
| Call (request : Request) (awaiter : Awaiter)
| Navigate (screen : string).

(** ** Arrays of objects *)

(** A new object. *)
Definition alloc (h : Heap) (o : Extra.t) : Heap * ref :=
  let r := fresh (dom h) in (<[r := o]> h, r).

(** The objects a parsed JSON array consists of. *)
Fixpoint parse_array (h : Heap) (json : list Extra.t) : Heap * list ref :=
  match json with
  | [] => (h, [])
  | o :: json' =>
      let '(h1, r) := alloc h o in
      let '(h2, rs) := parse_array h1 json' in
      (h2, r :: rs)
  end.

(** [Object.assign(target, { quantity: q })]: writes the property into
    [target] and returns [target] itself. *)
Definition Object_assign (h : Heap) (target : ref) (q : Z) : Heap * ref :=
  (alter (Extra.with_quantity q) target h, target).

(** Runs [k] on the object [r] refers to.  An array element always refers to
    a live object; the other case cannot arise and leaves everything as it
    is. *)
Definition on_object {A} (h : Heap) (r : ref) (k : Extra.t → A) (dangling : A)
  : A :=
  match h !! r with
  | Some o => k o
  | None => dangling
  end.

(** [array.map(callback)]: calls [callback] on the elements in index order
    and collects what it returns in a new array.  The callback may allocate
    or change objects, so the heap is threaded through. *)
Fixpoint array_map (callback : Heap → ref → Heap * ref) (h : Heap)
  (array : list ref) : Heap * list ref :=
  match array with
  | [] => (h, [])
  | r :: array' =>
      let '(h1, r') := callback h r in
      let '(h2, rs) := array_map callback h1 array' in
      (h2, r' :: rs)
  end.

(** [array.reduce(callback, init)]. *)
Definition array_reduce {A} (callback : A → Extra.t → A) (init : A)
  (h : Heap) (array : list ref) : A :=
  fold_left (λ accumulator r, on_object h r (callback accumulator) accumulator)
    array init.

(** ** The component *)

Section FoodDetails.

(** [import formatValue from '../../utils/formatValue']. *)
Variable formatValue : float → string.

(** The request [loadFood] awaits. *)
Definition loadFood_request (routeParams : Params.t) : Request :=
  GET ("/foods/" +:+ template_number (Params.id routeParams)).

(** [loadFood] from its [await] on: [outcome] is how the request settled.
    A rejection, and the [TypeError] of [data.price] when [data] is [null]
    or [undefined], end the function before it sets any state. *)
Definition loadFood (outcome : Outcome) (st : State) : State :=
  match outcome with
  | Rejected => st
  | Resolved response =>
      match data response with
      | NoData => st
      | FoodData d =>
          let '(h1, raw) := parse_array (heap st) (FoodJson.extras d) in
          let newFood :=
            {| Food.id := FoodJson.id d;
               Food.name := FoodJson.name d;
               Food.description := FoodJson.description d;
               Food.price := FoodJson.price d;
               Food.image_url := FoodJson.image_url d;
               Food.extras := raw;
               Food.formattedPrice := formatValue (FoodJson.price d) |} in
          let '(h2, formattedExtra) :=
            array_map
              (λ h extra,
                 on_object h extra
                   (λ o, alloc h (Extra.with_quantity 0 o)) (h, extra))
              h1 raw in
          {| heap := h2; food := Some newFood; extras := formattedExtra;
             isFavorite := isFavorite st; foodQuantity := foodQuantity st |}
      end
  end.

(** The request [loadFavorite] awaits. *)
Definition loadFavorite_request (routeParams : Params.t) : Request :=
  GET ("/favorites/" +:+ template_number (Params.id routeParams)).

(** [loadFavorite] from its [await] on. *)
Definition loadFavorite (outcome : Outcome) (st : State) : State :=
  match outcome with
  | Rejected => st
  | Resolved favorite =>
      if truthy favorite then
        {| heap := heap st; food := food st; extras := extras st;
           isFavorite := negb (isFavorite st);
           foodQuantity := foodQuantity st |}
      else st
  end.

(** [setExtras(updater)] where the updater maps over the old array. *)
Definition setExtras_map (callback : Heap → ref → Heap * ref) (st : State)
  : State :=
  let '(h, newExtras) := array_map callback (heap st) (extras st) in
  {| heap := h; food := food st; extras := newExtras;
     isFavorite := isFavorite st; foodQuantity := foodQuantity st |}.

Definition handleIncrementExtra (id : Z) (st : State) : State :=
  setExtras_map
    (λ h extra,
       on_object h extra
         (λ o,
            if Extra.id o =? id
            then Object_assign h extra (Extra.quantity o + 1)
            else (h, extra))
         (h, extra))
    st.

Definition handleDecrementExtra (id : Z) (st : State) : State :=
  setExtras_map
    (λ h extra,
       on_object h extra
         (λ o,
            if Extra.id o =? id
            then Object_assign h extra
                   (if 1 <=? Extra.quantity o
                    then Extra.quantity o - 1
                    else Extra.quantity o)
            else (h, extra))
         (h, extra))
    st.

Definition setFoodQuantity (updater : Z → Z) (st : State) : State :=
  {| heap := heap st; food := food st; extras := extras st;
     isFavorite := isFavorite st;
     foodQuantity := updater (foodQuantity st) |}.

Definition handleIncrementFood (st : State) : State :=
  setFoodQuantity (λ oldQuantity, oldQuantity + 1) st.

Definition handleDecrementFood (st : State) : State :=
  setFoodQuantity
    (λ oldQuantity, if 1 <? oldQuantity then oldQuantity - 1 else oldQuantity)
    st.

Definition setIsFavorite (updater : bool → bool) (st : State) : State :=
  {| heap := heap st; food := food st; extras := extras st;
     isFavorite := updater (isFavorite st);
     foodQuantity := foodQuantity st |}.

Definition toggleFavorite (st : State) : State * list Effect :=
  let call :=
    if truthy (isFavorite st)
    then Call (DELETE ("favorites/" +:+ template (Food.id <$> food st)))
           Nobody
    else Call (POST "favorites" (FoodBody (food st))) Nobody in
  (setIsFavorite (λ oldState, negb oldState) st, [call]).

Definition cartTotal (st : State) : string :=
  let totalExtras :=
    array_reduce
      (λ accumulator extra,
         accumulator
         + number_of_Z (Extra.quantity extra) * Extra.value extra)%float
      0%float (heap st) (extras st) in
  let totalFood := Food.price <$> food st in
  formatValue
    (js_plus totalExtras totalFood * number_of_Z (foodQuantity st))%float.

Definition handleFinishOrder (st : State) : State * list Effect :=
  let formattedFood : Literal :=
    [ ("product_id", of_undefined Num (Food.id <$> food st));
      ("name", of_undefined Text (Food.name <$> food st));
      ("description", of_undefined Text (Food.description <$> food st));
      ("price", of_undefined Money (Food.price <$> food st));
      ("thumbnail_url", of_undefined Text (Food.image_url <$> food st));
      ("extras", Array (extras st)) ] in
  (st,
   [ Call (POST "orders" (LiteralBody formattedFood)) Nobody;
     Navigate "DashboardStack" ]).

(** ** The screen as a transition system *)

Inductive Event :=
| Mount (routeParams : Params.t)
| Settle (awaiter : Awaiter) (outcome : Outcome)
| PressIncrementExtra (id : Z)
| PressDecrementExtra (id : Z)
| PressIncrementFood
| PressDecrementFood
| PressFavorite
| PressFinishOrder.

(** What happens when a request settles: the function that awaits it goes
    on; nothing runs for a promise nobody holds. *)
Definition settle (awaiter : Awaiter) (outcome : Outcome) (st : State)
  : State :=
  match awaiter with
  | LoadFood => loadFood outcome st
  | LoadFavorite => loadFavorite outcome st
  | Nobody => st
  end.

Definition step (st : State) (ev : Event) : State * list Effect :=
  match ev with
  | Mount routeParams =>
      (st, [ Call (loadFood_request routeParams) LoadFood;
             Call (loadFavorite_request routeParams) LoadFavorite ])
  | Settle awaiter outcome => (settle awaiter outcome st, [])
  | PressIncrementExtra id => (handleIncrementExtra id st, [])
  | PressDecrementExtra id => (handleDecrementExtra id st, [])
  | PressIncrementFood => (handleIncrementFood st, [])
  | PressDecrementFood => (handleDecrementFood st, [])
  | PressFavorite => toggleFavorite st
  | PressFinishOrder => handleFinishOrder st
  end.

Definition run (st : State) (evs : list Event) : State :=
  fold_left (λ s ev, fst (step s ev)) evs st.

End FoodDetails.

(** ** Reading the state *)

(** The objects an array refers to, in index order. *)
Definition objects (h : Heap) (array : list ref) : list Extra.t :=
  omap (λ r, h !! r) array.

(** The extras as the screen shows them. *)
Definition shown (st : State) : list Extra.t :=
  objects (heap st) (extras st).

(** The array [food.extras]; the initial [food] has none. *)
Definition food_extras (st : State) : list ref :=
  from_option Food.extras [] (food st).

(** What one handler call does to one extra: the quantity of the extra with
    the given id goes through [f], the others are not touched. *)
Definition on_quantity (id : Z) (f : Z → Z) (o : Extra.t) : Extra.t :=
  if Extra.id o =? id then Extra.with_quantity (f (Extra.quantity o)) o else o.

Definition incremented (q : Z) : Z := q + 1.
Definition decremented (q : Z) : Z := if 1 <=? q then q - 1 else q.

(** [upd] applied in place to every element of an array, in index order. *)
Definition alter_all (upd : Extra.t → Extra.t) (array : list ref) (h : Heap)
  : Heap :=
  fold_left (λ h' r, alter upd r h') array h.

(** The callback of [loadFood]: [extra => ({ ...extra, quantity: 0 })]. *)
Definition zeroed (h : Heap) (extra : ref) : Heap * ref :=
  on_object h extra (λ o, alloc h (Extra.with_quantity 0 o)) (h, extra).

(** The state after every element of [extras] went through [upd]. *)
Definition updated (upd : Extra.t → Extra.t) (st : State) : State :=
  {| heap := alter_all upd (extras st) (heap st); food := food st;
     extras := extras st; isFavorite := isFavorite st;
     foodQuantity := foodQuantity st |}.

(** Well-formed states: the elements of [extras] are distinct live objects,
    and none of them is an element of [food.extras]. *)
Definition wf (st : State) : Prop :=
  NoDup (extras st)
  ∧ Forall (λ r, is_Some (heap st !! r)) (extras st)
  ∧ Forall (λ r, r ∉ extras st) (food_extras st).

#[global] Instance wf_dec st : Decision (wf st).
Proof. unfold wf. apply _. Defined.

(** The invariants of the data model. *)
Definition quantities_ok (st : State) : Prop :=
  Forall (λ o, 0 ≤ Extra.quantity o) (shown st).

Definition invariant (st : State) : Prop :=
  wf st ∧ quantities_ok st ∧ 1 ≤ foodQuantity st.

(** The finite sum [Σ_{i < n} term i], added up in index order from [0]. *)
Fixpoint sigma (n : nat) (term : nat → float) : float :=
  match n with
  | O => 0%float
  | S k => (sigma k term + term k)%float
  end.

(** The [i]-th summand of the extras total, [quantity × value]. *)
Definition extra_cost (os : list Extra.t) (i : nat) : float :=
  match os !! i with
  | Some o => (number_of_Z (Extra.quantity o) * Extra.value o)%float
  | None => 0%float
  end.

(** What a call on the extra [id] may change between [st] and [st']: the
    [extras] array keeps its elements, every extra keeps its [id], [name] and
    [value], an extra with another id keeps its quantity too, and [food]
    (with the objects of [food.extras]), [isFavorite] and [foodQuantity] are
    the same. *)
Definition extras_frame (id : Z) (st st' : State) : Prop :=
  extras st' = extras st
  ∧ length (shown st') = length (shown st)
  ∧ (∀ i o,
       shown st !! i = Some o →
       ∃ o', shown st' !! i = Some o'
             ∧ Extra.id o' = Extra.id o
             ∧ Extra.name o' = Extra.name o
             ∧ Extra.value o' = Extra.value o
             ∧ (Extra.id o ≠ id → o' = o))
  ∧ food st' = food st
  ∧ objects (heap st') (food_extras st') = objects (heap st) (food_extras st)
  ∧ isFavorite st' = isFavorite st
  ∧ foodQuantity st' = foodQuantity st.

(** ** Examples *)

(** A stand-in formatter for the examples: whole amounts in decimal. *)
Definition plain (x : float) : string :=
  match Prim2SF x with
  | S754_zero _ => "0"
  | S754_infinity _ => "Infinity"
  | S754_nan => "NaN"
  | S754_finite s m e =>
      let n := if s then Z.neg m else Z.pos m in
      if 0 <=? e then template_number (n * 2 ^ e)
      else if Z.pos m mod 2 ^ (- e) =? 0 then template_number (n / 2 ^ (- e))
      else "fraction"
  end.

(** A food of 10.00 with one extra of 2.00. *)
Definition ao_molho : FoodJson.t :=
  {| FoodJson.id := 1;
     FoodJson.name := "Ao molho";
     FoodJson.description := "Pasta in white sauce with mushrooms.";
     FoodJson.price := 10%float;
     FoodJson.image_url := "ao_molho.png";
     FoodJson.extras :=
       [ {| Extra.id := 4; Extra.name := "Bacon"; Extra.value := 2%float;
            Extra.quantity := 0 |} ] |}.

(** The same food with an extra whose value does not fit binary64: JSON
    [1e999] parses to [Infinity]. *)
Definition overpriced : FoodJson.t :=
  {| FoodJson.id := 2;
     FoodJson.name := "Ao molho";
     FoodJson.description := "Pasta in white sauce with mushrooms.";
     FoodJson.price := 10%float;
     FoodJson.image_url := "ao_molho.png";
     FoodJson.extras :=
       [ {| Extra.id := 4; Extra.name := "Bacon"; Extra.value := infinity;
            Extra.quantity := 0 |} ] |}.

Section Examples.

Variable formatValue : float → string.

(** The screen after the food above has loaded. *)
Definition loaded_example : State :=
  loadFood formatValue (Resolved (mkResponse (FoodData ao_molho))) initial.

(** Three presses on the extra's plus, one on the food's plus. *)
Definition order_example : State :=
  run formatValue loaded_example
    [ PressIncrementExtra 4; PressIncrementExtra 4; PressIncrementExtra 4;
      PressIncrementFood ].

(** The loaded screen of a food that is a favorite. *)
Definition favorite_example : State :=
  loadFavorite (Resolved (mkResponse (FoodData ao_molho))) loaded_example.

End Examples.

(** ** What the screen shows *)

#[local] Set Warnings "-register-all".

(** The value of a prop.  An arrow function given as [onPress] is the event
    its call is. *)
Inductive Attr :=
| AText (s : string)
| ANumber (n : Z)
| AObject (fields : list (string * Attr))
| AUndefined
| OnPress (ev : Event).

(** A rendered tree: elements with their props and children; a string, a
    number or [undefined] in braces; the array of an [extras.map]. *)
Inductive Node :=
| Element (tag : string) (props : list (string * Attr)) (children : list Node)
| TextNode (s : string)
| NumberNode (n : Z)
| Absent
| ArrayNode (items : list Node).

(** [{v}] for a string that may be [undefined]. *)
Definition braces (v : option string) : Node :=
  match v with
  | Some s => TextNode s
  | None => Absent
  end.

(** [props[key]]. *)
Fixpoint prop (key : string) (props : list (string * Attr)) : option Attr :=
  match props with
  | [] => None
  | (k, v) :: props' => if String.eqb k key then Some v else prop key props'
  end.

(** Whether an element carries the given [testID]. *)
Definition has_testID (testID : string) (props : list (string * Attr)) : bool :=
  match prop "testID" props with
  | Some (AText s) => String.eqb s testID
  | _ => false
  end.

(** All elements with the given [testID], in document order. *)
Fixpoint queryAllByTestId (testID : string) (n : Node) : list Node :=
  match n with
  | Element tag props children =>
      (if has_testID testID props then [n] else [])
      ++ flat_map (queryAllByTestId testID) children
  | ArrayNode items => flat_map (queryAllByTestId testID) items
  | TextNode _ | NumberNode _ | Absent => []
  end.

(** The text a node shows: the strings and numbers below it, in order. *)
Fixpoint textContent (n : Node) : string :=
  match n with
  | Element _ _ children =>
      fold_right (λ c s, textContent c +:+ s) "" children
  | ArrayNode items => fold_right (λ c s, textContent c +:+ s) "" items
  | TextNode s => s
  | NumberNode k => template_number k
  | Absent => ""
  end.

(** The [onPress] of an element, if it has one. *)
Definition onPress (n : Node) : option Event :=
  match n with
  | Element _ props _ =>
      match prop "onPress" props with
      | Some (OnPress ev) => Some ev
      | _ => None
      end
  | _ => None
  end.

Section View.

Variable formatValue : float → string.



(** One element of [extras.map(extra => ...)] in the returned tree. *)
Definition AdittionalItem (extra : Extra.t) : Node :=
  Element "AdittionalItem" [ ("key", ANumber (Extra.id extra)) ]
    [ Element "AdittionalItemText" [] [ TextNode (Extra.name extra) ];
      Element "AdittionalQuantity" []
        [ Element "Icon"
            [ ("size", ANumber 15); ("color", AText "#6C6C80");
              ("name", AText "minus");
              ("onPress", OnPress (PressDecrementExtra (Extra.id extra)));
              ("testID",
               AText ("decrement-extra-" +:+ template_number (Extra.id extra)))
            ] [];
          Element "AdittionalItemText"
            [ ("testID",
               AText ("extra-quantity-" +:+ template_number (Extra.id extra)))
            ]
            [ NumberNode (Extra.quantity extra) ];
          Element "Icon"
            [ ("size", ANumber 15); ("color", AText "#6C6C80");
              ("name", AText "plus");
              ("onPress", OnPress (PressIncrementExtra (Extra.id extra)));
              ("testID",
               AText ("increment-extra-" +:+ template_number (Extra.id extra)))
            ] [] ] ].

(** The tree the component returns. *)
Definition render (st : State) : Node :=
  Element "Container" []
    [ Element "Header" [] [];
      Element "ScrollContainer" []
        [ Element "FoodsContainer" []
            [ Element "Food" []
                [ Element "FoodImageContainer" []
                    [ Element "Image"
                        [ ("style",
                           AObject [ ("width", ANumber 327);
                                     ("height", ANumber 183) ]);
                          ("source",
                           AObject
                             [ ("uri",
                                from_option AText AUndefined
                                  (Food.image_url <$> food st)) ]) ] [] ];
                  Element "FoodContent" []
                    [ Element "FoodTitle" []
                        [ braces (Food.name <$> food st) ];
                      Element "FoodDescription" []
                        [ braces (Food.description <$> food st) ];
                      Element "FoodPricing" []
                        [ braces (Food.formattedPrice <$> food st) ] ] ] ];
          Element "AdditionalsContainer" []
            [ Element "Title" [] [ TextNode "Adicionais" ];
              ArrayNode (AdittionalItem <$> shown st) ];
          Element "TotalContainer" []
            [ Element "Title" [] [ TextNode "Total do pedido" ];
              Element "PriceButtonContainer" []
                [ Element "TotalPrice" [ ("testID", AText "cart-total") ]
                    [ TextNode (cartTotal formatValue st) ];
                  Element "QuantityContainer" []
                    [ Element "Icon"
                        [ ("size", ANumber 15); ("color", AText "#6C6C80");
                          ("name", AText "minus");
                          ("onPress", OnPress PressDecrementFood);
                          ("testID", AText "decrement-food") ] [];
                      Element "AdittionalItemText"
                        [ ("testID", AText "food-quantity") ]
                        [ NumberNode (foodQuantity st) ];
                      Element "Icon"
                        [ ("size", ANumber 15); ("color", AText "#6C6C80");
                          ("name", AText "plus");
                          ("onPress", OnPress PressIncrementFood);
                          ("testID", AText "increment-food") ] [] ] ];
              Element "FinishOrderButton"
                [ ("onPress", OnPress PressFinishOrder) ]
                [ Element "ButtonText" [] [ TextNode "Confirmar pedido" ];
                  Element "IconContainer" []
                    [ Element "Icon"
                        [ ("name", AText "check-square"); ("size", ANumber 24);
                          ("color", AText "#fff") ] [] ] ] ] ] ].

End View.

(** [Number.isFinite]: neither [NaN] nor an infinity. *)
Definition isFinite (x : float) : bool :=
  match Prim2SF x with
  | S754_zero _ | S754_finite _ _ _ => true
  | S754_infinity _ | S754_nan => false
  end.

(** The extras with the given id, as the screen shows them. *)
Definition with_id (id : Z) (os : list Extra.t) : list Extra.t :=
  filter (λ o, Extra.id o = id) os.

(** [n] calls of a handler in a row. *)
Definition times (n : nat) (handler : State → State) (st : State) : State :=
  Nat.iter n handler st.

(** Events other than a food fetch that resolves. *)
Definition keeps_food (ev : Event) : bool :=
  match ev with
  | Settle LoadFood (Resolved _) => false
  | _ => true
  end.

(** ** Heap and array lemmas *)

Section ArrayLemmas.

Implicit Types (h : Heap) (r : ref) (array : list ref).

Lemma array_map_alter callback upd :
  (∀ h r, callback h r = (alter upd r h, r)) →
  ∀ array h, array_map callback h array = (alter_all upd array h, array).
Proof.
  intros Hcb. induction array as [|r array IH]; intros h; simpl; [done|].
  rewrite Hcb, IH. done.
Qed.

Lemma lookup_alter_all_notin upd array : ∀ h r,
  r ∉ array → alter_all upd array h !! r = h !! r.
Proof.
  induction array as [|r0 array IH]; intros h r Hr; simpl; [done|].
  apply not_elem_of_cons in Hr as [Hne Hr].
  rewrite IH by done. by rewrite lookup_alter_ne.
Qed.

Lemma lookup_alter_all_in upd array : ∀ h r,
  NoDup array → r ∈ array → alter_all upd array h !! r = upd <$> h !! r.
Proof.
  induction array as [|r0 array IH]; intros h r Hnd Hr; simpl.
  - by apply elem_of_nil in Hr.
  - apply NoDup_cons in Hnd as [Hr0 Hnd].
    apply elem_of_cons in Hr as [->|Hr].
    + rewrite lookup_alter_all_notin by done. apply lookup_alter_eq.
    + rewrite IH by done. rewrite lookup_alter_ne; [done|].
      intros ->. done.
Qed.

Lemma objects_ext (g : Extra.t → Extra.t) h h' array :
  (∀ r, r ∈ array → h' !! r = g <$> h !! r) →
  objects h' array = g <$> objects h array.
Proof.
  unfold objects. induction array as [|r array IH]; intros Hl; csimpl; [done|].
  rewrite Hl by left. rewrite IH by (intros; apply Hl; by right).
  destruct (h !! r); done.
Qed.

Lemma objects_alter_all upd array h :
  NoDup array → objects (alter_all upd array h) array = upd <$> objects h array.
Proof.
  intros Hnd. apply objects_ext. intros r Hr. by apply lookup_alter_all_in.
Qed.

Lemma objects_alter_all_apart upd array others h :
  Forall (λ r, r ∉ array) others →
  objects (alter_all upd array h) others = objects h others.
Proof.
  intros Hap. rewrite <- (list_fmap_id (objects h others)).
  apply objects_ext. intros r Hr.
  rewrite Forall_forall in Hap.
  rewrite lookup_alter_all_notin by auto. by destruct (h !! r).
Qed.

Lemma alter_all_id upd array : ∀ h,
  (∀ r o, r ∈ array → h !! r = Some o → upd o = o) →
  alter_all upd array h = h.
Proof.
  induction array as [|r array IH]; intros h Hid; simpl; [done|].
  rewrite (alter_id upd h r) by (intros o Ho; eapply Hid; [by left|done]).
  apply IH. intros r' o Hr' Ho. eapply Hid; [by right|done].
Qed.

Lemma is_Some_alter_all upd array h r :
  is_Some (h !! r) → is_Some (alter_all upd array h !! r).
Proof.
  revert h. induction array as [|r0 array IH]; intros h Hs; simpl; [done|].
  apply IH. rewrite lookup_alter. case_decide; [subst|done].
  by apply fmap_is_Some.
Qed.

Lemma length_objects h array :
  Forall (λ r, is_Some (h !! r)) array → length (objects h array) = length array.
Proof.
  unfold objects. induction 1 as [|r array [o Ho] _ IH]; csimpl; [done|].
  rewrite Ho. csimpl. by rewrite IH.
Qed.

End ArrayLemmas.

(** ** The extras handlers as in-place updates *)

Section ExtrasHandlers.

Lemma setExtras_map_updated callback upd st :
  (∀ h r, callback h r = (alter upd r h, r)) →
  setExtras_map callback st = updated upd st.
Proof.
  intros Hcb. unfold setExtras_map.
  by rewrite (array_map_alter _ _ Hcb).
Qed.

Lemma assign_where_alter id f (h : Heap) (r : ref) :
  on_object h r
    (λ o, if Extra.id o =? id
          then Object_assign h r (f (Extra.quantity o)) else (h, r))
    (h, r)
  = (alter (on_quantity id f) r h, r).
Proof.
  unfold on_object, Object_assign.
  destruct (h !! r) as [o|] eqn:Ho.
  - destruct (Extra.id o =? id) eqn:Hid; f_equal.
    + apply alter_ext. intros o' Ho'. simplify_eq.
      unfold on_quantity. by rewrite Hid.
    + symmetry. apply alter_id. intros o' Ho'. simplify_eq.
      unfold on_quantity. by rewrite Hid.
  - f_equal. symmetry. apply alter_id. intros o' Ho'. congruence.
Qed.

Lemma handleIncrementExtra_updated id st :
  handleIncrementExtra id st = updated (on_quantity id incremented) st.
Proof.
  apply setExtras_map_updated. intros h r.
  apply (assign_where_alter id incremented).
Qed.

Lemma handleDecrementExtra_updated id st :
  handleDecrementExtra id st = updated (on_quantity id decremented) st.
Proof.
  apply setExtras_map_updated. intros h r.
  apply (assign_where_alter id decremented).
Qed.

Lemma shown_updated upd st :
  wf st → shown (updated upd st) = upd <$> shown st.
Proof. intros (Hnd & _ & _). by apply objects_alter_all. Qed.

Lemma wf_updated upd st : wf st → wf (updated upd st).
Proof.
  intros (Hnd & Hlive & Hapart). repeat split; simpl; [done| |done].
  eapply Forall_impl; [exact Hlive|]. intros r Hr.
  by apply is_Some_alter_all.
Qed.

Lemma updated_id upd st :
  Forall (λ o, upd o = o) (shown st) → updated upd st = st.
Proof.
  intros Hid. destruct st as [h fd ex fav fq]. unfold updated, shown in *.
  simpl in *. f_equal. apply alter_all_id. intros r o Hr Ho.
  rewrite Forall_forall in Hid. apply Hid.
  unfold objects. apply list_elem_of_omap. eauto.
Qed.

Lemma on_quantity_fields id f o :
  Extra.id (on_quantity id f o) = Extra.id o
  ∧ Extra.name (on_quantity id f o) = Extra.name o
  ∧ Extra.value (on_quantity id f o) = Extra.value o.
Proof. unfold on_quantity. by destruct (Extra.id o =? id). Qed.

Lemma on_quantity_other id f o :
  Extra.id o ≠ id → on_quantity id f o = o.
Proof.
  intros Hne. unfold on_quantity.
  destruct (Z.eqb_spec (Extra.id o) id); [done|done].
Qed.

Lemma quantities_ok_updated id f st :
  (∀ q, 0 ≤ q → 0 ≤ f q) →
  wf st → quantities_ok st → quantities_ok (updated (on_quantity id f) st).
Proof.
  intros Hf Hwf Hq. unfold quantities_ok in *.
  rewrite shown_updated by done. rewrite Forall_fmap.
  eapply Forall_impl; [exact Hq|]. intros o Ho. simpl.
  unfold on_quantity. destruct (Extra.id o =? id); simpl; auto.
Qed.

End ExtrasHandlers.

(** ** Loading *)

Section Loading.

Implicit Types (h : Heap) (r : ref) (array : list ref).

Lemma alloc_fresh h o h1 r :
  alloc h o = (h1, r) → h !! r = None ∧ h1 = <[r := o]> h.
Proof.
  unfold alloc. cbv zeta. intros Heq. injection Heq as <- <-. split; [|done].
  apply not_elem_of_dom, is_fresh.
Qed.

Lemma objects_weaken h h' array :
  h ⊆ h' → Forall (λ r, is_Some (h !! r)) array →
  objects h' array = objects h array.
Proof.
  intros Hsub Hlive. rewrite <- (list_fmap_id (objects h array)).
  apply objects_ext. intros r Hr.
  rewrite Forall_forall in Hlive. destruct (Hlive r Hr) as [o Ho].
  rewrite Ho. simpl. by eapply lookup_weaken.
Qed.

Lemma parse_array_spec json : ∀ h h1 raw,
  parse_array h json = (h1, raw) →
  h ⊆ h1 ∧ Forall (λ r, is_Some (h1 !! r)) raw ∧ objects h1 raw = json.
Proof.
  induction json as [|o json IH]; intros h h1 raw; cbn [parse_array].
  - intros Heq. injection Heq as <- <-. by repeat split.
  - destruct (alloc h o) as [h' r] eqn:Ha.
    destruct (parse_array h' json) as [h2 rs] eqn:Hp.
    intros Heq. injection Heq as <- <-. apply alloc_fresh in Ha as [Hr ->].
    destruct (IH _ _ _ Hp) as (Hsub & Hlive & Hobj).
    assert (h2 !! r = Some o) as Hlook.
    { eapply lookup_weaken; [|exact Hsub]. apply lookup_insert_eq. }
    split; [|split].
    + etrans; [|exact Hsub]. by apply insert_subseteq.
    + constructor; [by eexists|done].
    + unfold objects in *. csimpl. by rewrite Hlook, Hobj.
Qed.

Lemma array_map_zeroed array : ∀ h h2 out,
  Forall (λ r, is_Some (h !! r)) array →
  array_map zeroed h array = (h2, out) →
  h ⊆ h2
  ∧ NoDup out
  ∧ Forall (λ r, h !! r = None) out
  ∧ Forall (λ r, is_Some (h2 !! r)) out
  ∧ objects h2 out = Extra.with_quantity 0 <$> objects h array.
Proof.
  induction array as [|r array IH]; intros h h2 out Hlive; cbn [array_map].
  - intros Heq. injection Heq as <- <-. repeat split; try done; constructor.
  - apply Forall_cons in Hlive as [[o Ho] Hlive].
    unfold zeroed at 1, on_object. rewrite Ho.
    destruct (alloc h _) as [h' r'] eqn:Ha.
    destruct (array_map zeroed h' array) as [h3 rs] eqn:Hm.
    intros Heq. injection Heq as <- <-. apply alloc_fresh in Ha as [Hr' ->].
    assert (h ⊆ <[r' := Extra.with_quantity 0 o]> h) as Hsub
      by by apply insert_subseteq.
    assert (Forall (λ r, is_Some (<[r' := Extra.with_quantity 0 o]> h !! r))
              array) as Hlive'.
    { eapply Forall_impl; [exact Hlive|]. intros r0 Hr0. simpl in *.
      eapply lookup_weaken_is_Some; [exact Hr0|exact Hsub]. }
    destruct (IH _ _ _ Hlive' Hm) as (Hsub' & Hnd & Hnew & Hlive2 & Hobj).
    assert (h3 !! r' = Some (Extra.with_quantity 0 o)) as Hlook.
    { eapply lookup_weaken; [|exact Hsub']. apply lookup_insert_eq. }
    rewrite Forall_forall in Hnew.
    repeat split.
    + by etrans.
    + constructor; [|done]. intros Hin. apply Hnew in Hin.
      by rewrite lookup_insert_eq in Hin.
    + constructor; [done|]. apply Forall_forall. intros r0 Hr0.
      apply Hnew in Hr0. apply lookup_insert_None in Hr0. tauto.
    + constructor; [by eexists|done].
    + unfold objects in *. csimpl. rewrite Hlook, Ho. csimpl.
      rewrite Hobj. f_equal. f_equal.
      apply (objects_weaken h _ array Hsub Hlive).
Qed.

End Loading.

(** ** Invariants of the transition system *)

Section Invariants.

Variable formatValue : float → string.

(** The state right after a successful food fetch. *)
Lemma loadFood_loaded d st :
  let st' := loadFood formatValue (Resolved (mkResponse (FoodData d))) st in
  wf st'
  ∧ shown st' = Extra.with_quantity 0 <$> FoodJson.extras d
  ∧ isFavorite st' = isFavorite st
  ∧ foodQuantity st' = foodQuantity st.
Proof.
  unfold loadFood. cbn [data].
  destruct (parse_array (heap st) (FoodJson.extras d)) as [h1 raw] eqn:Hp.
  apply parse_array_spec in Hp as (_ & Hraw & Hjson).
  fold zeroed.
  destruct (array_map zeroed h1 raw) as [h2 out] eqn:Hm.
  apply array_map_zeroed in Hm as (_ & Hnd & Hnew & Hlive & Hobj); [|done].
  cbv zeta. unfold wf, shown, food_extras.
  cbn [heap food extras isFavorite foodQuantity from_option Food.extras].
  repeat split; try done.
  - apply Forall_forall. intros r Hr Hin.
    rewrite Forall_forall in Hraw, Hnew.
    destruct (Hraw r Hr) as [o Ho]. specialize (Hnew r Hin). congruence.
  - by rewrite Hobj, Hjson.
Qed.

Lemma invariant_frame st st' :
  heap st' = heap st → food st' = food st → extras st' = extras st →
  foodQuantity st' = foodQuantity st →
  invariant st → invariant st'.
Proof.
  unfold invariant, wf, quantities_ok, shown, food_extras.
  by intros -> -> -> ->.
Qed.

Lemma loadFood_invariant outcome st :
  invariant st → invariant (loadFood formatValue outcome st).
Proof.
  intros Hinv. destruct outcome as [[[|d]]|]; try done.
  destruct (loadFood_loaded d st) as (Hwf & Hshown & _ & Hfq).
  destruct Hinv as (_ & _ & Hq).
  split; [done|]. split; [|by rewrite Hfq].
  unfold quantities_ok. rewrite Hshown, Forall_fmap.
  by apply Forall_true.
Qed.

Lemma extras_handler_invariant id f st :
  (∀ q, 0 ≤ q → 0 ≤ f q) →
  invariant st → invariant (updated (on_quantity id f) st).
Proof.
  intros Hf (Hwf & Hq & Hfq). split; [by apply wf_updated|].
  split; [by apply quantities_ok_updated|done].
Qed.

Lemma step_invariant st ev :
  invariant st → invariant (fst (step formatValue st ev)).
Proof.
  intros Hinv. destruct ev as [rp|[| |] o|id|id| | | |]; simpl; try done.
  - by apply loadFood_invariant.
  - destruct o as [favorite|]; simpl; [|done].
    by apply (invariant_frame st).
  - rewrite handleIncrementExtra_updated.
    apply extras_handler_invariant; [|done]. unfold incremented. lia.
  - rewrite handleDecrementExtra_updated.
    apply extras_handler_invariant; [|done].
    unfold decremented. intros q Hq. destruct (Z.leb_spec 1 q); lia.
  - destruct Hinv as (Hwf & Hq & Hfq). repeat split; try apply Hwf; try done.
    simpl. lia.
  - destruct Hinv as (Hwf & Hq & Hfq). repeat split; try apply Hwf; try done.
    simpl. destruct (Z.ltb_spec 1 (foodQuantity st)); lia.
Qed.

Lemma run_invariant evs : ∀ st,
  invariant st → invariant (run formatValue st evs).
Proof.
  induction evs as [|ev evs IH]; intros st Hinv; simpl; [done|].
  apply IH. by apply step_invariant.
Qed.

Lemma initial_invariant : invariant initial.
Proof.
  split; [|split].
  - split; [|split]; constructor.
  - constructor.
  - reflexivity.
Qed.

(** Every state the screen can be in satisfies the invariant. *)
Lemma reachable_invariant evs : invariant (run formatValue initial evs).
Proof. apply run_invariant, initial_invariant. Qed.

(** In a well-formed state [shown] misses no element of [extras]. *)
Lemma shown_length st : wf st → length (shown st) = length (extras st).
Proof. intros (_ & Hlive & _). by apply length_objects. Qed.

(** A favorites fetch that resolves negates the flag, whatever it brings. *)
Lemma loadFavorite_resolved response st :
  isFavorite (loadFavorite (Resolved response) st) = negb (isFavorite st).
Proof. done. Qed.

End Invariants.

(** ** Pricing lemmas *)

Section Pricing.

Lemma array_reduce_objects {A} (callback : A → Extra.t → A) h array :
  ∀ init,
    array_reduce callback init h array
    = fold_left callback (objects h array) init.
Proof.
  unfold array_reduce, objects.
  induction array as [|r array IH]; intros init; csimpl; [done|].
  rewrite IH. unfold on_object. by destruct (h !! r).
Qed.

Lemma sigma_ext n : ∀ term term',
  (∀ i, (i < n)%nat → term i = term' i) → sigma n term = sigma n term'.
Proof.
  induction n as [|n IH]; intros term term' Hext; simpl; [done|].
  rewrite (IH term term') by (intros; apply Hext; lia).
  by rewrite Hext by lia.
Qed.

Lemma extra_cost_app_l os o i :
  (i < length os)%nat → extra_cost (os ++ [o]) i = extra_cost os i.
Proof. intros Hi. unfold extra_cost. by rewrite lookup_app_l. Qed.

Lemma extra_cost_last os o :
  extra_cost (os ++ [o]) (length os)
  = (number_of_Z (Extra.quantity o) * Extra.value o)%float.
Proof.
  unfold extra_cost. rewrite lookup_app_r by lia.
  by rewrite Nat.sub_diag.
Qed.

Lemma reduce_sigma (os : list Extra.t) :
  fold_left
    (λ accumulator extra,
       accumulator + number_of_Z (Extra.quantity extra) * Extra.value extra)%float
    os 0%float
  = sigma (length os) (extra_cost os).
Proof.
  induction os as [|o os IH] using rev_ind; [done|].
  rewrite fold_left_app, length_app. simpl.
  rewrite Nat.add_1_r. simpl.
  rewrite IH, extra_cost_last. f_equal.
  apply sigma_ext. intros i Hi. symmetry. by apply extra_cost_app_l.
Qed.

Lemma add_nan_r (x : float) : (x + nan)%float = nan.
Proof.
  apply Prim2SF_inj. rewrite add_spec.
  change (Prim2SF nan) with S754_nan.
  by destruct (Prim2SF x).
Qed.

Lemma mul_nan_l (y : float) : (nan * y)%float = nan.
Proof.
  apply Prim2SF_inj. rewrite mul_spec.
  change (Prim2SF nan) with S754_nan.
  by destruct (Prim2SF y).
Qed.

End Pricing.

(** ** Frame and round-trip lemmas *)

Lemma updated_frame id f st :
  wf st → extras_frame id st (updated (on_quantity id f) st).
Proof.
  intros Hwf. unfold extras_frame. rewrite shown_updated by done.
  split; [done|]. split; [by rewrite length_fmap|]. split; [|split].
  - intros i o Hi. exists (on_quantity id f o).
    rewrite list_lookup_fmap, Hi.
    destruct (on_quantity_fields id f o) as (? & ? & ?).
    repeat split; try done. apply on_quantity_other.
  - done.
  - split; [|done]. destruct Hwf as (_ & _ & Hapart).
    by apply objects_alter_all_apart.
Qed.

Lemma decrement_increment_extra id o :
  0 ≤ Extra.quantity o →
  on_quantity id decremented (on_quantity id incremented o) = o.
Proof.
  intros Hq. unfold on_quantity at 2.
  destruct (Extra.id o =? id) eqn:Hid.
  - unfold on_quantity. simpl. rewrite Hid.
    unfold decremented, incremented, Extra.with_quantity. simpl.
    destruct (Z.leb_spec 1 (Extra.quantity o + 1)); [|lia].
    destruct o as [i n v q]. simpl in *. f_equal. lia.
  - unfold on_quantity. by rewrite Hid.
Qed.

Lemma updated_compose upd upd' st :
  wf st →
  (∀ o, o ∈ shown st → upd' (upd o) = o) →
  updated upd' (updated upd st) = st.
Proof.
  intros (Hnd & Hlive & _) Hinv.
  destruct st as [h fd ex fav fq]. unfold updated, shown in *. simpl in *.
  f_equal. apply map_eq. intros r.
  destruct (decide (r ∈ ex)) as [Hin|Hout].
  - rewrite !lookup_alter_all_in by done.
    rewrite Forall_forall in Hlive. destruct (Hlive r Hin) as [o Ho].
    rewrite Ho. simpl. f_equal. apply Hinv.
    unfold objects. apply list_elem_of_omap. eauto.
  - by rewrite !lookup_alter_all_notin.
Qed.

(** Closed instances of decidable properties are settled by evaluation. *)
Ltac by_decision := apply (bool_decide_unpack _); by vm_compute.

(** * The claims *)

(** C1: with a loaded food of unit price [p], whatever the extras and the
    order quantity [q], [cartTotal] is [formatValue] of
    [(Σ quantity × value + p) × q], the sum taken over the extras in order;
    with [p = 10.00], one extra of value [2.00] and quantity [3], and [q = 2],
    it is [formatValue 32]. *)
Theorem cartTotal_formula (formatValue : float → string) :
  (∀ st f,
     food st = Some f →
     cartTotal formatValue st
     = formatValue
         ((sigma (length (shown st)) (extra_cost (shown st)) + Food.price f)
          * number_of_Z (foodQuantity st))%float)
  ∧ (Food.price <$> food (order_example formatValue) = Some 10%float
     ∧ (λ o, (Extra.value o, Extra.quantity o))
         <$> shown (order_example formatValue) = [(2%float, 3)]
     ∧ foodQuantity (order_example formatValue) = 2
     ∧ cartTotal formatValue (order_example formatValue)
       = formatValue 32%float).
Proof.
  split.
  - intros st f Hfood. unfold cartTotal, js_plus. rewrite Hfood. simpl.
    by rewrite array_reduce_objects, reduce_sigma.
  - by vm_compute.
Qed.

Lemma cartTotal_formula_witness :
  food (order_example plain) = Some
    {| Food.id := 1; Food.name := "Ao molho";
       Food.description := FoodJson.description ao_molho;
       Food.price := 10%float; Food.image_url := "ao_molho.png";
       Food.formattedPrice := "10"; Food.extras := [1%positive] |}
  ∧ cartTotal plain (order_example plain) = "32".
Proof.
  split; [by vm_compute|].
  rewrite (proj1 (cartTotal_formula plain) (order_example plain) _ eq_refl).
  by vm_compute.
Defined.

(** C10: while [food] is still the initial empty object its [price] is
    [undefined], and [cartTotal] formats [NaN], whatever the extras and the
    order quantity; the formula of C1 needs the food to be loaded. *)
Theorem cartTotal_before_load (formatValue : float → string) (st : State) :
  food st = None → cartTotal formatValue st = formatValue nan.
Proof.
  intros Hfood. unfold cartTotal, js_plus. rewrite Hfood. simpl.
  by rewrite add_nan_r, mul_nan_l.
Qed.

Lemma cartTotal_before_load_witness :
  food initial = None ∧ cartTotal plain initial = "NaN".
Proof.
  split; [reflexivity|].
  by rewrite (cartTotal_before_load plain initial eq_refl).
Defined.

(** C2: from the loaded state, in which every extra has quantity [0], no
    sequence of events (presses on the extras' plus and minus with any ids
    among them) brings the quantity of an extra below [0]; a decrement on an
    extra of quantity [0] leaves it as it is. *)
Theorem extras_quantity_never_negative (formatValue : float → string)
  (d : FoodJson.t) (before : list Event) :
  let loaded :=
    loadFood formatValue (Resolved (mkResponse (FoodData d)))
      (run formatValue initial before) in
  Forall (λ o, Extra.quantity o = 0) (shown loaded)
  ∧ (∀ evs,
       Forall (λ o, 0 ≤ Extra.quantity o) (shown (run formatValue loaded evs)))
  ∧ (∀ evs id i o,
       let st := run formatValue loaded evs in
       shown st !! i = Some o → Extra.quantity o = 0 →
       shown (handleDecrementExtra id st) !! i = Some o).
Proof.
  intros loaded.
  assert (invariant loaded) as Hinv.
  { apply loadFood_invariant, run_invariant, initial_invariant. }
  split; [|split].
  - destruct (loadFood_loaded formatValue d (run formatValue initial before))
      as (_ & Hshown & _).
    fold loaded in Hshown. rewrite Hshown, Forall_fmap. by apply Forall_true.
  - intros evs. by apply (run_invariant formatValue evs loaded Hinv).
  - intros evs id i o st Hi Hq.
    destruct (run_invariant formatValue evs loaded Hinv) as (Hwf & _).
    rewrite handleDecrementExtra_updated, shown_updated by done.
    rewrite list_lookup_fmap. fold st. rewrite Hi. simpl. f_equal.
    unfold on_quantity, decremented. rewrite Hq.
    destruct (Extra.id o =? id); [|done].
    destruct o; simpl in *. by subst.
Qed.

Lemma extras_quantity_never_negative_witness :
  shown (loaded_example plain) !! 0%nat
  = Some {| Extra.id := 4; Extra.name := "Bacon"; Extra.value := 2%float;
            Extra.quantity := 0 |}
  ∧ shown (handleDecrementExtra 4 (loaded_example plain)) !! 0%nat
    = Some {| Extra.id := 4; Extra.name := "Bacon"; Extra.value := 2%float;
              Extra.quantity := 0 |}.
Proof.
  split; [by vm_compute|].
  apply (proj2 (proj2 (extras_quantity_never_negative plain ao_molho []))
           [] 4 0%nat); by vm_compute.
Defined.

(** C3: from the initial order quantity [1], no sequence of events (presses
    on the food's plus and minus among them) brings [foodQuantity] below
    [1]; a decrement at [1] leaves it [1]. *)
Theorem foodQuantity_never_below_one (formatValue : float → string) :
  foodQuantity initial = 1
  ∧ (∀ evs, 1 ≤ foodQuantity (run formatValue initial evs))
  ∧ (∀ st, foodQuantity st = 1 → foodQuantity (handleDecrementFood st) = 1).
Proof.
  split; [done|]. split.
  - intros evs. apply (run_invariant formatValue evs initial initial_invariant).
  - intros st Hq. simpl. by rewrite Hq.
Qed.

Lemma foodQuantity_never_below_one_witness :
  foodQuantity initial = 1 ∧ foodQuantity (handleDecrementFood initial) = 1.
Proof.
  split; [reflexivity|].
  apply (proj2 (proj2 (foodQuantity_never_below_one plain))). reflexivity.
Defined.

(** C4: one call of [toggleFavorite] negates [isFavorite] and changes nothing
    else; it issues one request, a DELETE of [favorites/<food id>] when the
    flag was set and otherwise a POST of the whole [food] to [favorites];
    nobody awaits that request, so however it settles the state stays as the
    call left it.  With a loaded food the url ends in the digits of its id
    ([favorites/1] for the food with id [1]); before the food has loaded it
    is [favorites/undefined]. *)
Theorem toggleFavorite_flips (formatValue : float → string) (st : State) :
  (∃ st' request awaiter,
     toggleFavorite st = (st', [Call request awaiter])
     ∧ isFavorite st' = negb (isFavorite st)
     ∧ heap st' = heap st ∧ food st' = food st ∧ extras st' = extras st
     ∧ foodQuantity st' = foodQuantity st
     ∧ (if isFavorite st
        then ∃ url, request = DELETE url
        else request = POST "favorites" (FoodBody (food st)))
     ∧ ∀ outcome, settle formatValue awaiter outcome st' = st')
  ∧ (∀ f,
       food st = Some f → safe_integer (Food.id f) →
       snd (toggleFavorite st)
       = [ Call (if isFavorite st
                 then DELETE
                        ("favorites/"
                         +:+ NilZero.string_of_int (Z.to_int (Food.id f)))
                 else POST "favorites" (FoodBody (Some f))) Nobody ])
  ∧ (food st = None →
     snd (toggleFavorite st)
     = [ Call (if isFavorite st
               then DELETE "favorites/undefined"
               else POST "favorites" (FoodBody None)) Nobody ])
  ∧ isFavorite (favorite_example formatValue) = true
  ∧ toggleFavorite (favorite_example formatValue)
    = (loaded_example formatValue, [ Call (DELETE "favorites/1") Nobody ])
  ∧ toggleFavorite (loaded_example formatValue)
    = (favorite_example formatValue,
       [ Call (POST "favorites"
                 (FoodBody
                    (Some
                       {| Food.id := 1; Food.name := "Ao molho";
                          Food.description :=
                            "Pasta in white sauce with mushrooms.";
                          Food.price := 10%float;
                          Food.image_url := "ao_molho.png";
                          Food.formattedPrice := formatValue 10%float;
                          Food.extras := [1%positive] |}))) Nobody ]).
Proof.
  split; [|split; [|split]].
  - unfold toggleFavorite, truthy, truthy_bool.
    destruct (isFavorite st) eqn:Hfav;
      do 3 eexists; (split; [reflexivity|]); simpl; rewrite ?Hfav;
      repeat split; by eexists.
  - intros f Hfood _. unfold toggleFavorite, truthy, truthy_bool.
    rewrite Hfood. by destruct (isFavorite st).
  - intros Hfood. unfold toggleFavorite, truthy, truthy_bool.
    rewrite Hfood. by destruct (isFavorite st).
  - by vm_compute.
Qed.

Lemma toggleFavorite_flips_witness :
  food (favorite_example plain)
  = Some {| Food.id := 1; Food.name := "Ao molho";
            Food.description := "Pasta in white sauce with mushrooms.";
            Food.price := 10%float; Food.image_url := "ao_molho.png";
            Food.formattedPrice := "10"; Food.extras := [1%positive] |}
  ∧ safe_integer 1
  ∧ snd (toggleFavorite (favorite_example plain))
    = [ Call (DELETE "favorites/1") Nobody ].
Proof.
  assert (safe_integer 1) as Hsafe by (unfold safe_integer; lia).
  split; [by vm_compute|]. split; [exact Hsafe|].
  etrans;
    [exact (proj1 (proj2 (toggleFavorite_flips plain (favorite_example plain)))
              _ eq_refl Hsafe)|].
  by vm_compute.
Defined.

(** C5: [handleFinishOrder] posts to [orders] an object with exactly the
    properties [product_id], [name], [description], [price], [thumbnail_url]
    and [extras]; the first five are the [id], [name], [description],
    [price] and [image_url] of the current [food] ([undefined] while it has
    not loaded), the last is the current [extras] array.  The state is not
    changed. *)
Theorem handleFinishOrder_payload (formatValue : float → string) (st : State) :
  (∃ payload,
     handleFinishOrder st
     = (st, [ Call (POST "orders" (LiteralBody payload)) Nobody;
              Navigate "DashboardStack" ])
     ∧ payload.*1
       = ["product_id"; "name"; "description"; "price"; "thumbnail_url";
          "extras"]
     ∧ property "product_id" payload
       = Some (of_undefined Num (Food.id <$> food st))
     ∧ property "name" payload
       = Some (of_undefined Text (Food.name <$> food st))
     ∧ property "description" payload
       = Some (of_undefined Text (Food.description <$> food st))
     ∧ property "price" payload
       = Some (of_undefined Money (Food.price <$> food st))
     ∧ property "thumbnail_url" payload
       = Some (of_undefined Text (Food.image_url <$> food st))
     ∧ property "extras" payload = Some (Array (extras st))
     ∧ (∀ f,
          food st = Some f →
          payload
          = [ ("product_id", Num (Food.id f));
              ("name", Text (Food.name f));
              ("description", Text (Food.description f));
              ("price", Money (Food.price f));
              ("thumbnail_url", Text (Food.image_url f));
              ("extras", Array (extras st)) ])
     ∧ (food st = None →
        payload
        = [ ("product_id", Undefined); ("name", Undefined);
            ("description", Undefined); ("price", Undefined);
            ("thumbnail_url", Undefined);
            ("extras", Array (extras st)) ]))
  ∧ shown (order_example formatValue)
    = [ {| Extra.id := 4; Extra.name := "Bacon"; Extra.value := 2%float;
           Extra.quantity := 3 |} ]
  ∧ handleFinishOrder (order_example formatValue)
    = (order_example formatValue,
       [ Call (POST "orders"
                 (LiteralBody
                    [ ("product_id", Num 1);
                      ("name", Text "Ao molho");
                      ("description",
                       Text "Pasta in white sauce with mushrooms.");
                      ("price", Money 10%float);
                      ("thumbnail_url", Text "ao_molho.png");
                      ("extras", Array (extras (order_example formatValue)))
                    ])) Nobody;
         Navigate "DashboardStack" ]).
Proof.
  split.
  - eexists. split; [reflexivity|].
    repeat (split; [reflexivity|]). split.
    + intros f Hfood. by rewrite Hfood.
    + intros Hfood. by rewrite Hfood.
  - by vm_compute.
Qed.

Lemma handleFinishOrder_payload_witness :
  food (order_example plain)
  = Some {| Food.id := 1; Food.name := "Ao molho";
            Food.description := "Pasta in white sauce with mushrooms.";
            Food.price := 10%float; Food.image_url := "ao_molho.png";
            Food.formattedPrice := "10"; Food.extras := [1%positive] |}
  ∧ snd (handleFinishOrder (order_example plain))
    = [ Call (POST "orders"
                (LiteralBody
                   [ ("product_id", Num 1);
                     ("name", Text "Ao molho");
                     ("description",
                      Text "Pasta in white sauce with mushrooms.");
                     ("price", Money 10%float);
                     ("thumbnail_url", Text "ao_molho.png");
                     ("extras", Array [2%positive]) ])) Nobody;
        Navigate "DashboardStack" ].
Proof.
  split; [by vm_compute|].
  destruct (proj1 (handleFinishOrder_payload plain (order_example plain)))
    as (payload & Hcall & _ & _ & _ & _ & _ & _ & _ & Hloaded & _).
  rewrite Hcall, (Hloaded _ eq_refl). by vm_compute.
Defined.

(** C6 (the code departs from it): a favorites fetch that succeeds without
    bringing a record still sets the flag, because the test is on the
    response object, which is always truthy. *)
Theorem loadFavorite_empty_response :
  isFavorite initial = false
  ∧ isFavorite (loadFavorite (Resolved (mkResponse NoData)) initial) = true.
Proof. by split. Qed.

(** C7: on a well-formed state [handleIncrementExtra id] adds [1] to the
    quantity of every extra whose id is [id] and leaves the other extras as
    they are; when no extra has that id the whole state is unchanged. *)
Theorem handleIncrementExtra_spec (id : Z) (st : State) :
  wf st →
  let st' := handleIncrementExtra id st in
  length (shown st') = length (shown st)
  ∧ (∀ i o,
       shown st !! i = Some o → Extra.id o = id →
       shown st' !! i = Some (Extra.with_quantity (Extra.quantity o + 1) o))
  ∧ (∀ i o,
       shown st !! i = Some o → Extra.id o ≠ id → shown st' !! i = Some o)
  ∧ ((∀ o, o ∈ shown st → Extra.id o ≠ id) → st' = st).
Proof.
  intros Hwf st'. unfold st'. rewrite handleIncrementExtra_updated.
  rewrite shown_updated by done. repeat split.
  - by rewrite length_fmap.
  - intros i o Hi Hid. rewrite list_lookup_fmap, Hi. simpl. f_equal.
    unfold on_quantity. by rewrite (proj2 (Z.eqb_eq _ _) Hid).
  - intros i o Hi Hid. rewrite list_lookup_fmap, Hi. simpl. f_equal.
    by apply on_quantity_other.
  - intros Hnone. apply updated_id. apply Forall_forall. intros o Ho.
    apply on_quantity_other. by apply Hnone.
Qed.

Lemma handleIncrementExtra_spec_witness :
  wf (loaded_example plain)
  ∧ shown (handleIncrementExtra 4 (loaded_example plain)) !! 0%nat
    = Some {| Extra.id := 4; Extra.name := "Bacon"; Extra.value := 2%float;
              Extra.quantity := 1 |}
  ∧ handleIncrementExtra 5 (loaded_example plain) = loaded_example plain.
Proof.
  assert (wf (loaded_example plain)) as Hwf
    by by_decision.
  split; [exact Hwf|]. split.
  - apply (proj1 (proj2 (handleIncrementExtra_spec 4 (loaded_example plain) Hwf))
             0%nat {| Extra.id := 4; Extra.name := "Bacon";
                      Extra.value := 2%float; Extra.quantity := 0 |});
      by vm_compute.
  - apply (proj2 (proj2 (proj2
             (handleIncrementExtra_spec 5 (loaded_example plain) Hwf)))).
    intros o Ho. vm_compute in Ho. apply list_elem_of_In in Ho.
    destruct Ho as [<-|[]]. done.
Defined.

(** C8: on a well-formed state, [handleIncrementExtra] and
    [handleDecrementExtra] keep the length of the extras list and the id,
    name and value of every extra; a quantity changes only where the id is
    the one passed; the food record, the favorite flag and the order quantity
    stay the same. *)
Theorem extras_handlers_frame (id : Z) (st : State) :
  wf st →
  extras_frame id st (handleIncrementExtra id st)
  ∧ extras_frame id st (handleDecrementExtra id st).
Proof.
  intros Hwf.
  rewrite handleIncrementExtra_updated, handleDecrementExtra_updated.
  split; by apply updated_frame.
Qed.

Lemma extras_handlers_frame_witness :
  wf (order_example plain)
  ∧ extras_frame 4 (order_example plain)
      (handleIncrementExtra 4 (order_example plain))
  ∧ extras_frame 4 (order_example plain)
      (handleDecrementExtra 4 (order_example plain)).
Proof.
  assert (wf (order_example plain)) as Hwf
    by by_decision.
  split; [exact Hwf|]. exact (extras_handlers_frame 4 (order_example plain) Hwf).
Defined.

(** C9: on a well-formed state whose quantities are not negative,
    [handleIncrementExtra id] followed by [handleDecrementExtra id] gives the
    state back, so every quantity has its original value.  The other order
    does not: on an extra of quantity [0] the decrement does nothing and the
    increment then leaves [1]. *)
Theorem increment_then_decrement (id : Z) (st : State) :
  (wf st → quantities_ok st →
   handleDecrementExtra id (handleIncrementExtra id st) = st)
  ∧ Extra.quantity
      <$> shown (handleIncrementExtra 4
                   (handleDecrementExtra 4 (loaded_example plain)))
    ≠ Extra.quantity <$> shown (loaded_example plain).
Proof.
  split.
  - intros Hwf Hq.
    rewrite handleIncrementExtra_updated, handleDecrementExtra_updated.
    apply updated_compose; [done|]. intros o Ho.
    apply decrement_increment_extra.
    unfold quantities_ok in Hq. rewrite Forall_forall in Hq. by apply Hq.
  - by vm_compute.
Qed.

Lemma increment_then_decrement_witness :
  wf (order_example plain) ∧ quantities_ok (order_example plain)
  ∧ handleDecrementExtra 4 (handleIncrementExtra 4 (order_example plain))
    = order_example plain.
Proof.
  assert (wf (order_example plain)) as Hwf
    by by_decision.
  assert (quantities_ok (order_example plain)) as Hq
    by by_decision.
  split; [exact Hwf|]. split; [exact Hq|].
  exact (proj1 (increment_then_decrement 4 (order_example plain)) Hwf Hq).
Defined.

(** * Further properties of the component *)

(** ** Template literals and test ids *)

Lemma template_number_parse (z : Z) :
  NilZero.int_of_string (template_number z) = Some (Z.to_int z).
Proof.
  unfold template_number. apply NilZero.isi; destruct z; simpl; try done.
  - intros [= H]. by apply DecimalPos.Unsigned.to_uint_nonnil in H.
  - intros [= H]. by apply DecimalPos.Unsigned.to_uint_nonnil in H.
Qed.

Lemma template_number_inj (a b : Z) :
  template_number a = template_number b → a = b.
Proof.
  intros Heq. apply DecimalZ.to_int_inj.
  pose proof (template_number_parse a) as Ha.
  rewrite Heq, template_number_parse in Ha. congruence.
Qed.

Lemma template_number_eqb (a b : Z) :
  String.eqb (template_number a) (template_number b) = (a =? b).
Proof.
  destruct (Z.eqb_spec a b) as [->|Hne].
  - apply String.eqb_refl.
  - apply String.eqb_neq. intros Heq. by apply template_number_inj in Heq.
Qed.

(** Comparisons of test ids: a common literal prefix is dropped, a
    comparison that literals decide is evaluated. *)
Ltac eqb_prefix :=
  repeat match goal with
  | |- context [String.eqb (?p +:+ ?a) (?p +:+ ?b)] =>
      change (String.eqb (p +:+ a) (p +:+ b)) with (String.eqb a b)
  | |- context [String.eqb ?x ?y] =>
      let r := eval cbv in (String.eqb x y) in
      match r with
      | true => idtac
      | false => idtac
      end;
      change (String.eqb x y) with r
  end.

Ltac walk :=
  repeat (progress
            (unfold has_testID;
             cbn [queryAllByTestId flat_map prop app braces];
             eqb_prefix)).

Lemma query_braces testID v : queryAllByTestId testID (braces v) = [].
Proof. by destruct v. Qed.

Ltac query_tree :=
  walk; rewrite ?query_braces; cbn [app]; rewrite ?app_nil_r.

Lemma append_nil_r (s : string) : s +:+ "" = s.
Proof.
  induction s as [|c s IH]; [done|].
  change (String c (s +:+ "") = String c s). by rewrite IH.
Qed.

(** ** Queries on the rendered tree *)

Section Queries.

Variable formatValue : float → string.

Lemma query_items {B} (g : Node → B) (h : Extra.t → B) testID id os :
  (∀ o, g <$> queryAllByTestId testID (AdittionalItem o)
        = if Extra.id o =? id then [h o] else []) →
  g <$> flat_map (queryAllByTestId testID) (AdittionalItem <$> os)
  = h <$> with_id id os.
Proof.
  intros Hitem. unfold with_id.
  induction os as [|o os IH]; [done|]. rewrite fmap_cons. cbn [flat_map].
  rewrite fmap_app, Hitem, IH, filter_cons.
  destruct (Z.eqb_spec (Extra.id o) id); by case_decide.
Qed.

Lemma query_items_none testID os :
  (∀ a, String.eqb ("decrement-extra-" +:+ a) testID = false) →
  (∀ a, String.eqb ("extra-quantity-" +:+ a) testID = false) →
  (∀ a, String.eqb ("increment-extra-" +:+ a) testID = false) →
  flat_map (queryAllByTestId testID) (AdittionalItem <$> os) = [].
Proof.
  intros H1 H2 H3. induction os as [|o os IH]; [done|].
  rewrite fmap_cons. cbn [flat_map]. rewrite IH.
  unfold AdittionalItem. walk. by rewrite H1, H2, H3.
Qed.

Lemma query_item_quantity id o :
  textContent
    <$> queryAllByTestId ("extra-quantity-" +:+ template_number id)
          (AdittionalItem o)
  = if Extra.id o =? id then [template_number (Extra.quantity o)] else [].
Proof.
  rewrite <- template_number_eqb. unfold AdittionalItem.
  generalize (template_number (Extra.id o)) (template_number id).
  intros a b. walk. destruct (a =? b)%string; [|done].
  cbn. by rewrite append_nil_r.
Qed.

Lemma query_item_plus id o :
  onPress
    <$> queryAllByTestId ("increment-extra-" +:+ template_number id)
          (AdittionalItem o)
  = if Extra.id o =? id then [Some (PressIncrementExtra id)] else [].
Proof.
  destruct (Z.eqb_spec (Extra.id o) id) as [<-|Hne].
  - unfold AdittionalItem. generalize (template_number (Extra.id o)).
    intros a. walk. by rewrite String.eqb_refl.
  - apply Z.eqb_neq in Hne. rewrite <- template_number_eqb in Hne.
    revert Hne. unfold AdittionalItem.
    generalize (template_number (Extra.id o)) (template_number id).
    intros a b Hne. walk. by rewrite Hne.
Qed.

Lemma query_item_minus id o :
  onPress
    <$> queryAllByTestId ("decrement-extra-" +:+ template_number id)
          (AdittionalItem o)
  = if Extra.id o =? id then [Some (PressDecrementExtra id)] else [].
Proof.
  destruct (Z.eqb_spec (Extra.id o) id) as [<-|Hne].
  - unfold AdittionalItem. generalize (template_number (Extra.id o)).
    intros a. walk. by rewrite String.eqb_refl.
  - apply Z.eqb_neq in Hne. rewrite <- template_number_eqb in Hne.
    revert Hne. unfold AdittionalItem.
    generalize (template_number (Extra.id o)) (template_number id).
    intros a b Hne. walk. by rewrite Hne.
Qed.

Lemma query_render_items prefix id st :
  prefix = "extra-quantity-" ∨ prefix = "increment-extra-"
  ∨ prefix = "decrement-extra-" →
  queryAllByTestId (prefix +:+ template_number id) (render formatValue st)
  = flat_map (queryAllByTestId (prefix +:+ template_number id))
      (AdittionalItem <$> shown st).
Proof.
  unfold render. generalize (template_number id) (shown st). intros b os.
  intros [->|[->| ->]]; by query_tree.
Qed.

End Queries.

Lemma with_id_fmap id f os :
  with_id id (on_quantity id f <$> os) = on_quantity id f <$> with_id id os.
Proof.
  unfold with_id. induction os as [|o os IH]; [done|].
  rewrite fmap_cons, !filter_cons, IH.
  destruct (on_quantity_fields id f o) as (Hid & _). rewrite Hid.
  by case_decide.
Qed.

Lemma with_id_absent id os : id ∉ Extra.id <$> os → with_id id os = [].
Proof.
  unfold with_id. induction os as [|o os IH]; intros Hnotin; [done|].
  rewrite fmap_cons in Hnotin. apply not_elem_of_cons in Hnotin as [Hne Hnotin].
  rewrite filter_cons, decide_False by done. by apply IH.
Qed.

Lemma with_id_unique os : ∀ i o,
  NoDup (Extra.id <$> os) → os !! i = Some o → with_id (Extra.id o) os = [o].
Proof.
  induction os as [|o' os IH]; intros i o Hnd Hi; [done|].
  rewrite fmap_cons in Hnd. apply NoDup_cons in Hnd as [Hnotin Hnd].
  unfold with_id in *. rewrite filter_cons. destruct i as [|i]; simpl in Hi.
  - injection Hi as ->. rewrite decide_True by done. f_equal.
    by apply with_id_absent.
  - rewrite decide_False; [by eapply IH|].
    intros Heq. apply Hnotin. rewrite Heq.
    apply list_elem_of_fmap. exists o. split; [done|].
    by eapply list_elem_of_lookup_2.
Qed.

(** ** What the rendered tree shows and what its presses do *)

Lemma total_row (formatValue : float → string) (st : State) :
  textContent <$> queryAllByTestId "cart-total" (render formatValue st)
  = [cartTotal formatValue st]
  ∧ textContent <$> queryAllByTestId "food-quantity" (render formatValue st)
    = [template_number (foodQuantity st)]
  ∧ onPress <$> queryAllByTestId "increment-food" (render formatValue st)
    = [Some PressIncrementFood]
  ∧ onPress <$> queryAllByTestId "decrement-food" (render formatValue st)
    = [Some PressDecrementFood].
Proof.
  unfold render. repeat split; query_tree;
    rewrite query_items_none by done; cbn; by rewrite ?append_nil_r.
Qed.

Lemma extra_rows (formatValue : float → string) (st : State) (id : Z) :
  textContent
    <$> queryAllByTestId ("extra-quantity-" +:+ template_number id)
          (render formatValue st)
  = (λ o, template_number (Extra.quantity o)) <$> with_id id (shown st)
  ∧ onPress
      <$> queryAllByTestId ("increment-extra-" +:+ template_number id)
            (render formatValue st)
    = (λ _, Some (PressIncrementExtra id)) <$> with_id id (shown st)
  ∧ onPress
      <$> queryAllByTestId ("decrement-extra-" +:+ template_number id)
            (render formatValue st)
    = (λ _, Some (PressDecrementExtra id)) <$> with_id id (shown st).
Proof.
  rewrite !query_render_items by auto. repeat split.
  - apply query_items, query_item_quantity.
  - apply (query_items onPress (λ _, Some (PressIncrementExtra id))).
    intros o. apply query_item_plus.
  - apply (query_items onPress (λ _, Some (PressDecrementExtra id))).
    intros o. apply query_item_minus.
Qed.

Lemma quantity_after id f os :
  (λ o, template_number (Extra.quantity o))
    <$> with_id id (on_quantity id f <$> os)
  = (λ o, template_number (f (Extra.quantity o))) <$> with_id id os.
Proof.
  rewrite with_id_fmap, <- list_fmap_compose. apply list_fmap_ext.
  intros i o Hi. simpl. f_equal.
  apply list_elem_of_lookup_2, list_elem_of_filter in Hi as [Hid _].
  unfold on_quantity. by rewrite (proj2 (Z.eqb_eq _ _) Hid).
Qed.

(** X1: the elements with the test ids [cart-total] and [food-quantity] are
    unique whatever the extras are; they show [cartTotal] and
    [foodQuantity], and the icons [increment-food] and [decrement-food]
    carry the food handlers. *)
Theorem render_total_row (formatValue : float → string) (st : State) :
  textContent <$> queryAllByTestId "cart-total" (render formatValue st)
  = [cartTotal formatValue st]
  ∧ textContent <$> queryAllByTestId "food-quantity" (render formatValue st)
    = [template_number (foodQuantity st)]
  ∧ onPress <$> queryAllByTestId "increment-food" (render formatValue st)
    = [Some PressIncrementFood]
  ∧ onPress <$> queryAllByTestId "decrement-food" (render formatValue st)
    = [Some PressDecrementFood].
Proof. apply total_row. Qed.

(** X2: for every id, the elements with the test id [extra-quantity-<id>]
    are, in order, those of the extras with that id and show their
    quantities; the elements [increment-extra-<id>] and
    [decrement-extra-<id>] are as many and call the handlers with that
    id. *)
Theorem render_extra_rows (formatValue : float → string) (st : State) (id : Z) :
  textContent
    <$> queryAllByTestId ("extra-quantity-" +:+ template_number id)
          (render formatValue st)
  = (λ o, template_number (Extra.quantity o)) <$> with_id id (shown st)
  ∧ onPress
      <$> queryAllByTestId ("increment-extra-" +:+ template_number id)
            (render formatValue st)
    = (λ _, Some (PressIncrementExtra id)) <$> with_id id (shown st)
  ∧ onPress
      <$> queryAllByTestId ("decrement-extra-" +:+ template_number id)
            (render formatValue st)
    = (λ _, Some (PressDecrementExtra id)) <$> with_id id (shown st).
Proof. apply extra_rows. Qed.

(** X3: when the extras have distinct ids, each extra has exactly one
    quantity element, one plus and one minus under its test ids. *)
Theorem render_extra_row_unique (formatValue : float → string) (st : State)
  (i : nat) (o : Extra.t) :
  NoDup (Extra.id <$> shown st) →
  shown st !! i = Some o →
  textContent
    <$> queryAllByTestId ("extra-quantity-" +:+ template_number (Extra.id o))
          (render formatValue st)
  = [template_number (Extra.quantity o)]
  ∧ onPress
      <$> queryAllByTestId ("increment-extra-" +:+ template_number (Extra.id o))
            (render formatValue st)
    = [Some (PressIncrementExtra (Extra.id o))]
  ∧ onPress
      <$> queryAllByTestId ("decrement-extra-" +:+ template_number (Extra.id o))
            (render formatValue st)
    = [Some (PressDecrementExtra (Extra.id o))].
Proof.
  intros Hnd Hi.
  destruct (extra_rows formatValue st (Extra.id o)) as (H1 & H2 & H3).
  rewrite H1, H2, H3, (with_id_unique _ i o Hnd Hi). done.
Qed.

Lemma render_extra_row_unique_witness :
  NoDup (Extra.id <$> shown (order_example plain))
  ∧ textContent
      <$> queryAllByTestId "extra-quantity-4" (render plain (order_example plain))
    = ["3"].
Proof.
  assert (NoDup (Extra.id <$> shown (order_example plain))) as Hnd
    by by_decision.
  split; [exact Hnd|].
  apply (render_extra_row_unique plain (order_example plain) 0%nat
           {| Extra.id := 4; Extra.name := "Bacon"; Extra.value := 2%float;
              Extra.quantity := 3 |} Hnd).
  by vm_compute.
Defined.

(** X4: a press on an element found under [increment-extra-<id>] raises by
    one the quantity shown under [extra-quantity-<id>]; a press on one found
    under [decrement-extra-<id>] lowers it by one, or leaves it when it is
    below [1]. *)
Theorem press_extra_shown (formatValue : float → string) (st : State) (id : Z) :
  wf st →
  (∀ n,
     n ∈ queryAllByTestId ("increment-extra-" +:+ template_number id)
           (render formatValue st) →
     ∃ ev,
       onPress n = Some ev
       ∧ textContent
           <$> queryAllByTestId ("extra-quantity-" +:+ template_number id)
                 (render formatValue (fst (step formatValue st ev)))
         = (λ o, template_number (Extra.quantity o + 1))
             <$> with_id id (shown st))
  ∧ (∀ n,
       n ∈ queryAllByTestId ("decrement-extra-" +:+ template_number id)
             (render formatValue st) →
       ∃ ev,
         onPress n = Some ev
         ∧ textContent
             <$> queryAllByTestId ("extra-quantity-" +:+ template_number id)
                   (render formatValue (fst (step formatValue st ev)))
           = (λ o, template_number
                     (if 1 <=? Extra.quantity o
                      then Extra.quantity o - 1 else Extra.quantity o))
               <$> with_id id (shown st)).
Proof.
  intros Hwf.
  destruct (extra_rows formatValue st id) as (_ & Hplus & Hminus).
  split; intros n Hn.
  - exists (PressIncrementExtra id). split.
    + apply (list_elem_of_fmap_2 onPress) in Hn. rewrite Hplus in Hn.
      apply list_elem_of_fmap in Hn as (o & -> & _). done.
    + cbn [step fst]. rewrite (proj1 (extra_rows formatValue _ id)).
      rewrite handleIncrementExtra_updated, shown_updated by done.
      apply quantity_after.
  - exists (PressDecrementExtra id). split.
    + apply (list_elem_of_fmap_2 onPress) in Hn. rewrite Hminus in Hn.
      apply list_elem_of_fmap in Hn as (o & -> & _). done.
    + cbn [step fst]. rewrite (proj1 (extra_rows formatValue _ id)).
      rewrite handleDecrementExtra_updated, shown_updated by done.
      apply quantity_after.
Qed.

Lemma press_extra_shown_witness :
  wf (order_example plain)
  ∧ ∃ n ev,
      queryAllByTestId "increment-extra-4" (render plain (order_example plain))
      = [n]
      ∧ onPress n = Some ev
      ∧ textContent
          <$> queryAllByTestId "extra-quantity-4"
                (render plain (fst (step plain (order_example plain) ev)))
        = ["4"].
Proof.
  assert (wf (order_example plain)) as Hwf by by_decision.
  split; [exact Hwf|].
  destruct (proj1 (press_extra_shown plain (order_example plain) 4 Hwf)
              (Element "Icon"
                 [ ("size", ANumber 15); ("color", AText "#6C6C80");
                   ("name", AText "plus");
                   ("onPress", OnPress (PressIncrementExtra 4));
                   ("testID", AText "increment-extra-4") ] []))
    as (ev & Hev & Hshown); [vm_compute; by left|].
  eexists _, ev. split; [by vm_compute|]. split; [exact Hev|].
  etrans; [exact Hshown|]. by vm_compute.
Defined.

(** X5: a press on the icon [increment-food] raises by one the number shown
    under [food-quantity]; a press on [decrement-food] lowers it by one when
    it is above [1] and leaves it otherwise. *)
Theorem press_food_shown (formatValue : float → string) (st : State) :
  ∃ plus minus,
    onPress <$> queryAllByTestId "increment-food" (render formatValue st)
    = [Some plus]
    ∧ onPress <$> queryAllByTestId "decrement-food" (render formatValue st)
      = [Some minus]
    ∧ textContent
        <$> queryAllByTestId "food-quantity"
              (render formatValue (fst (step formatValue st plus)))
      = [template_number (foodQuantity st + 1)]
    ∧ textContent
        <$> queryAllByTestId "food-quantity"
              (render formatValue (fst (step formatValue st minus)))
      = [template_number
           (if 1 <? foodQuantity st
            then foodQuantity st - 1 else foodQuantity st)].
Proof.
  exists PressIncrementFood, PressDecrementFood.
  destruct (total_row formatValue st) as (_ & _ & Hplus & Hminus).
  split; [done|]. split; [done|]. split.
  - by rewrite (proj1 (proj2 (total_row formatValue _))).
  - by rewrite (proj1 (proj2 (total_row formatValue _))).
Qed.

(** ** More on the quantity handlers *)

Lemma with_quantity_same o : Extra.with_quantity (Extra.quantity o) o = o.
Proof. by destruct o. Qed.

Lemma on_quantity_ext id f g os :
  Forall (λ o, f (Extra.quantity o) = g (Extra.quantity o)) os →
  on_quantity id f <$> os = on_quantity id g <$> os.
Proof.
  intros Hfg. apply list_fmap_ext. intros i o Hi.
  rewrite Forall_forall in Hfg. unfold on_quantity.
  rewrite (Hfg o) by by eapply list_elem_of_lookup_2. done.
Qed.

Lemma on_quantity_compose id f g o :
  on_quantity id f (on_quantity id g o) = on_quantity id (f ∘ g) o.
Proof.
  unfold on_quantity at 2 3. destruct (Extra.id o =? id) eqn:Hid.
  - unfold on_quantity. simpl. by rewrite Hid.
  - unfold on_quantity. by rewrite Hid.
Qed.

Lemma on_quantity_commute id1 id2 f g o :
  id1 ≠ id2 →
  on_quantity id1 f (on_quantity id2 g o)
  = on_quantity id2 g (on_quantity id1 f o).
Proof.
  intros Hne. unfold on_quantity.
  destruct (Z.eqb_spec (Extra.id o) id1), (Z.eqb_spec (Extra.id o) id2);
    simpl; repeat case_match; try done; try lia;
    repeat match goal with H : (_ =? _) = true |- _ => apply Z.eqb_eq in H end;
    repeat match goal with H : (_ =? _) = false |- _ => apply Z.eqb_neq in H end;
    congruence.
Qed.

Lemma updated_updated u v st :
  wf st → updated u (updated v st) = updated (u ∘ v) st.
Proof.
  intros (Hnd & _ & _). destruct st as [h fd ex fav fq].
  unfold updated. simpl in *. f_equal. apply map_eq. intros r.
  destruct (decide (r ∈ ex)).
  - rewrite !lookup_alter_all_in by done. by destruct (h !! r).
  - by rewrite !lookup_alter_all_notin.
Qed.

Lemma updated_ext u v st :
  wf st → Forall (λ o, u o = v o) (shown st) → updated u st = updated v st.
Proof.
  intros (Hnd & _ & _) Huv. destruct st as [h fd ex fav fq].
  unfold updated, shown in *. simpl in *. f_equal. apply map_eq. intros r.
  destruct (decide (r ∈ ex)).
  - rewrite !lookup_alter_all_in by done.
    destruct (h !! r) as [o|] eqn:Ho; [|done]. simpl. f_equal.
    rewrite Forall_forall in Huv. apply Huv.
    unfold objects. apply list_elem_of_omap. eauto.
  - by rewrite !lookup_alter_all_notin.
Qed.

Lemma updated_commute id1 id2 f g st :
  wf st → id1 ≠ id2 →
  updated (on_quantity id1 f) (updated (on_quantity id2 g) st)
  = updated (on_quantity id2 g) (updated (on_quantity id1 f) st).
Proof.
  intros Hwf Hne. rewrite !updated_updated by done.
  apply updated_ext; [done|]. apply Forall_forall. intros o _. simpl.
  by apply on_quantity_commute.
Qed.

(** X6: on a well-formed state [handleDecrementExtra id] takes [1] from the
    quantity of every extra with that id whose quantity is at least [1] and
    leaves every other extra as it is; when no extra with that id has a
    quantity of [1] or more, the state is unchanged. *)
Theorem handleDecrementExtra_spec (id : Z) (st : State) :
  wf st →
  let st' := handleDecrementExtra id st in
  length (shown st') = length (shown st)
  ∧ (∀ i o,
       shown st !! i = Some o → Extra.id o = id → 1 ≤ Extra.quantity o →
       shown st' !! i = Some (Extra.with_quantity (Extra.quantity o - 1) o))
  ∧ (∀ i o,
       shown st !! i = Some o → Extra.id o ≠ id ∨ Extra.quantity o < 1 →
       shown st' !! i = Some o)
  ∧ ((∀ o, o ∈ shown st → Extra.id o = id → Extra.quantity o < 1) → st' = st).
Proof.
  intros Hwf st'. unfold st'. rewrite handleDecrementExtra_updated.
  rewrite shown_updated by done.
  assert (∀ o, Extra.id o ≠ id ∨ Extra.quantity o < 1 →
               on_quantity id decremented o = o) as Hsame.
  { intros o [Hid|Hq]; [by apply on_quantity_other|].
    unfold on_quantity, decremented. destruct (Extra.id o =? id); [|done].
    destruct (Z.leb_spec 1 (Extra.quantity o)); [lia|].
    apply with_quantity_same. }
  repeat split.
  - by rewrite length_fmap.
  - intros i o Hi Hid Hq. rewrite list_lookup_fmap, Hi. simpl. f_equal.
    unfold on_quantity, decremented. rewrite (proj2 (Z.eqb_eq _ _) Hid).
    by destruct (Z.leb_spec 1 (Extra.quantity o)); [|lia].
  - intros i o Hi Hcase. rewrite list_lookup_fmap, Hi. simpl. f_equal. auto.
  - intros Hnone. apply updated_id. apply Forall_forall. intros o Ho.
    apply Hsame. destruct (decide (Extra.id o = id)); auto.
Qed.

Lemma handleDecrementExtra_spec_witness :
  wf (order_example plain)
  ∧ shown (handleDecrementExtra 4 (order_example plain)) !! 0%nat
    = Some {| Extra.id := 4; Extra.name := "Bacon"; Extra.value := 2%float;
              Extra.quantity := 2 |}.
Proof.
  assert (wf (order_example plain)) as Hwf by by_decision.
  split; [exact Hwf|].
  apply (proj1 (proj2 (handleDecrementExtra_spec 4 (order_example plain) Hwf))
           0%nat {| Extra.id := 4; Extra.name := "Bacon";
                    Extra.value := 2%float; Extra.quantity := 3 |});
    by vm_compute.
Defined.

(** X7: calls of the extras handlers on different ids commute: either order
    gives the same state. *)
Theorem extras_handlers_commute (id1 id2 : Z) (st : State) :
  wf st → id1 ≠ id2 →
  handleIncrementExtra id1 (handleIncrementExtra id2 st)
  = handleIncrementExtra id2 (handleIncrementExtra id1 st)
  ∧ handleIncrementExtra id1 (handleDecrementExtra id2 st)
    = handleDecrementExtra id2 (handleIncrementExtra id1 st)
  ∧ handleDecrementExtra id1 (handleDecrementExtra id2 st)
    = handleDecrementExtra id2 (handleDecrementExtra id1 st).
Proof.
  intros Hwf Hne.
  rewrite !handleIncrementExtra_updated, !handleDecrementExtra_updated.
  repeat split; by apply updated_commute.
Qed.

Lemma extras_handlers_commute_witness :
  wf (order_example plain) ∧ 4 ≠ 5
  ∧ handleIncrementExtra 4 (handleDecrementExtra 5 (order_example plain))
    = handleDecrementExtra 5 (handleIncrementExtra 4 (order_example plain)).
Proof.
  assert (wf (order_example plain)) as Hwf by by_decision.
  assert (4 ≠ 5) as Hne by lia.
  split; [exact Hwf|]. split; [exact Hne|].
  exact (proj1 (proj2
           (extras_handlers_commute 4 5 (order_example plain) Hwf Hne))).
Defined.

Lemma on_quantity_unique id_f (f : Z → Z) os i o :
  NoDup (Extra.id <$> os) → os !! i = Some o → id_f = Extra.id o →
  on_quantity id_f f <$> os
  = <[i := Extra.with_quantity (f (Extra.quantity o)) o]> os.
Proof.
  intros Hnd Hi ->. apply list_eq. intros j. rewrite list_lookup_fmap.
  destruct (decide (j = i)) as [->|Hne].
  - rewrite list_lookup_insert_eq by by eapply lookup_lt_Some.
    rewrite Hi. simpl. f_equal. unfold on_quantity. by rewrite Z.eqb_refl.
  - rewrite list_lookup_insert_ne by done.
    destruct (os !! j) as [o'|] eqn:Hj; [|done]. simpl. f_equal.
    apply on_quantity_other. intros Heq. apply Hne.
    eapply (NoDup_lookup _ j i (Extra.id o)); [exact Hnd| |].
    + by rewrite list_lookup_fmap, Hj, <- Heq.
    + by rewrite list_lookup_fmap, Hi.
Qed.

(** X8: when the extras have distinct ids, a call on the id of the extra at
    index [i] changes that extra alone: the shown list is the old one with
    index [i] replaced. *)
Theorem extras_handlers_single (st : State) (i : nat) (o : Extra.t) :
  wf st → NoDup (Extra.id <$> shown st) → shown st !! i = Some o →
  shown (handleIncrementExtra (Extra.id o) st)
  = <[i := Extra.with_quantity (Extra.quantity o + 1) o]> (shown st)
  ∧ shown (handleDecrementExtra (Extra.id o) st)
    = <[i := Extra.with_quantity
               (if 1 <=? Extra.quantity o
                then Extra.quantity o - 1 else Extra.quantity o) o]>
        (shown st).
Proof.
  intros Hwf Hnd Hi.
  rewrite handleIncrementExtra_updated, handleDecrementExtra_updated.
  rewrite !shown_updated by done.
  split; by apply on_quantity_unique.
Qed.

Lemma extras_handlers_single_witness :
  wf (order_example plain)
  ∧ NoDup (Extra.id <$> shown (order_example plain))
  ∧ Extra.quantity <$> shown (handleIncrementExtra 4 (order_example plain))
    = [4].
Proof.
  assert (wf (order_example plain)) as Hwf by by_decision.
  assert (NoDup (Extra.id <$> shown (order_example plain))) as Hnd
    by by_decision.
  split; [exact Hwf|]. split; [exact Hnd|].
  etrans;
    [exact (f_equal (fmap Extra.quantity)
              (proj1 (extras_handlers_single (order_example plain) 0%nat
                        {| Extra.id := 4; Extra.name := "Bacon";
                           Extra.value := 2%float; Extra.quantity := 3 |}
                        Hwf Hnd eq_refl)))|].
  by vm_compute.
Defined.

Lemma times_ext k (h h' : State → State) st :
  (∀ s, h s = h' s) → times k h st = times k h' st.
Proof.
  intros Hext. unfold times. induction k as [|k IH]; [done|]. simpl.
  by rewrite IH, Hext.
Qed.

Lemma times_updated k upd st :
  wf st → times k (updated upd) st = updated (Nat.iter k upd) st.
Proof.
  intros Hwf. induction k as [|k IH].
  - simpl. symmetry. apply updated_id. by apply Forall_true.
  - unfold times in *. simpl. rewrite IH. by apply updated_updated.
Qed.

Lemma iter_on_quantity k id f o :
  Nat.iter k (on_quantity id f) o = on_quantity id (Nat.iter k f) o.
Proof.
  induction k as [|k IH]; simpl.
  - destruct o. unfold on_quantity, Extra.with_quantity. simpl.
    by destruct (_ =? _).
  - rewrite IH. apply on_quantity_compose.
Qed.

Lemma iter_incremented k q : Nat.iter k incremented q = q + Z.of_nat k.
Proof.
  induction k as [|k IH]; simpl; [lia|]. rewrite IH. unfold incremented. lia.
Qed.

Lemma iter_decremented k q :
  0 ≤ q → Nat.iter k decremented q = Z.max 0 (q - Z.of_nat k).
Proof.
  intros Hq. induction k as [|k IH]; simpl; [lia|]. rewrite IH.
  unfold decremented. destruct (Z.leb_spec 1 (Z.max 0 (q - Z.of_nat k))); lia.
Qed.

(** X9: [k] presses in a row on the plus of an id add [k] to the quantity of
    the extras with that id; [k] presses on the minus take [k] away but stop
    at [0].  The other extras keep their quantity. *)
Theorem extras_presses (k : nat) (id : Z) (st : State) :
  wf st → quantities_ok st →
  shown (times k (handleIncrementExtra id) st)
  = on_quantity id (λ q, q + Z.of_nat k) <$> shown st
  ∧ shown (times k (handleDecrementExtra id) st)
    = on_quantity id (λ q, Z.max 0 (q - Z.of_nat k)) <$> shown st.
Proof.
  intros Hwf Hq.
  rewrite (times_ext k _ _ st (handleIncrementExtra_updated id)).
  rewrite (times_ext k _ _ st (handleDecrementExtra_updated id)).
  rewrite !times_updated, !shown_updated by done. split.
  - apply list_fmap_ext. intros i o _. rewrite iter_on_quantity.
    unfold on_quantity. by rewrite iter_incremented.
  - apply list_fmap_ext. intros i o Hi. rewrite iter_on_quantity.
    unfold on_quantity. rewrite iter_decremented; [done|].
    unfold quantities_ok in Hq. rewrite Forall_forall in Hq.
    apply Hq. by eapply list_elem_of_lookup_2.
Qed.

Lemma extras_presses_witness :
  wf (order_example plain) ∧ quantities_ok (order_example plain)
  ∧ Extra.quantity
      <$> shown (times 5 (handleDecrementExtra 4) (order_example plain))
    = [0].
Proof.
  assert (wf (order_example plain)) as Hwf by by_decision.
  assert (quantities_ok (order_example plain)) as Hq by by_decision.
  split; [exact Hwf|]. split; [exact Hq|].
  rewrite (proj2 (extras_presses 5 4 (order_example plain) Hwf Hq)).
  by vm_compute.
Defined.

Lemma decrement_increment_food st :
  1 ≤ foodQuantity st → handleDecrementFood (handleIncrementFood st) = st.
Proof.
  intros Hq. destruct st as [h fd ex fav fq].
  unfold handleDecrementFood, handleIncrementFood, setFoodQuantity.
  simpl in *. f_equal. destruct (Z.ltb_spec 1 (fq + 1)); lia.
Qed.

Lemma foodQuantity_increments k st :
  foodQuantity (times k handleIncrementFood st) = foodQuantity st + Z.of_nat k.
Proof.
  unfold times. induction k as [|k IH]; simpl; [lia|].
  rewrite IH. lia.
Qed.

(** X10: from an order quantity of at least [1], [k] presses on the food's
    plus add [k]; [k] presses on its minus take [k] away but stop at [1];
    and [k] presses on the minus after [k] on the plus give the state
    back. *)
Theorem food_presses (k : nat) (st : State) :
  1 ≤ foodQuantity st →
  foodQuantity (times k handleIncrementFood st) = foodQuantity st + Z.of_nat k
  ∧ foodQuantity (times k handleDecrementFood st)
    = Z.max 1 (foodQuantity st - Z.of_nat k)
  ∧ times k handleDecrementFood (times k handleIncrementFood st) = st.
Proof.
  intros Hq. split; [apply foodQuantity_increments|]. split.
  - unfold times. induction k as [|k IH]; simpl; [lia|].
    rewrite IH. destruct (Z.ltb_spec 1 (Z.max 1 (foodQuantity st - Z.of_nat k))); lia.
  - unfold times. induction k as [|k IH]; [done|].
    rewrite Nat.iter_succ_r. simpl Nat.iter at 2.
    rewrite decrement_increment_food; [exact IH|].
    pose proof (foodQuantity_increments k st) as Hk. unfold times in Hk. lia.
Qed.

Lemma food_presses_witness :
  1 ≤ foodQuantity initial
  ∧ foodQuantity (times 3 handleDecrementFood initial) = 1.
Proof.
  assert (1 ≤ foodQuantity initial) as Hq by (simpl; lia).
  split; [exact Hq|].
  exact (proj1 (proj2 (food_presses 3 initial Hq))).
Defined.

(** ** The favorite flag *)

(** X11: two calls of [toggleFavorite] in a row give the state back; they
    issue one DELETE and one POST, the DELETE first when the flag was set.
    With a loaded food the DELETE goes to [favorites/] followed by the
    digits of its id and the POST carries that food: for the food with id
    [1], not yet a favorite, a POST of it and then a DELETE of
    [favorites/1]. *)
Theorem toggleFavorite_twice (formatValue : float → string) (st : State) :
  fst (toggleFavorite (fst (toggleFavorite st))) = st
  ∧ (∀ f,
       food st = Some f → safe_integer (Food.id f) →
       snd (toggleFavorite st) ++ snd (toggleFavorite (fst (toggleFavorite st)))
       = (if isFavorite st
          then [ Call (DELETE
                         ("favorites/"
                          +:+ NilZero.string_of_int (Z.to_int (Food.id f))))
                   Nobody;
                 Call (POST "favorites" (FoodBody (Some f))) Nobody ]
          else [ Call (POST "favorites" (FoodBody (Some f))) Nobody;
                 Call (DELETE
                         ("favorites/"
                          +:+ NilZero.string_of_int (Z.to_int (Food.id f))))
                   Nobody ]))
  ∧ (food st = None →
     snd (toggleFavorite st) ++ snd (toggleFavorite (fst (toggleFavorite st)))
     = (if isFavorite st
        then [ Call (DELETE "favorites/undefined") Nobody;
               Call (POST "favorites" (FoodBody None)) Nobody ]
        else [ Call (POST "favorites" (FoodBody None)) Nobody;
               Call (DELETE "favorites/undefined") Nobody ]))
  ∧ snd (toggleFavorite (loaded_example formatValue))
    ++ snd (toggleFavorite (fst (toggleFavorite (loaded_example formatValue))))
    = [ Call (POST "favorites"
                (FoodBody
                   (Some
                      {| Food.id := 1; Food.name := "Ao molho";
                         Food.description :=
                           "Pasta in white sauce with mushrooms.";
                         Food.price := 10%float;
                         Food.image_url := "ao_molho.png";
                         Food.formattedPrice := formatValue 10%float;
                         Food.extras := [1%positive] |}))) Nobody;
        Call (DELETE "favorites/1") Nobody ].
Proof.
  split; [|split; [|split]].
  - by destruct st as [h fd ex [|] fq].
  - intros f Hfood _. destruct st as [h fd ex [|] fq]; simpl in *; by subst.
  - intros Hfood. destruct st as [h fd ex [|] fq]; simpl in *; by subst.
  - by vm_compute.
Qed.

Lemma toggleFavorite_twice_witness :
  food (favorite_example plain)
  = Some {| Food.id := 1; Food.name := "Ao molho";
            Food.description := "Pasta in white sauce with mushrooms.";
            Food.price := 10%float; Food.image_url := "ao_molho.png";
            Food.formattedPrice := "10"; Food.extras := [1%positive] |}
  ∧ safe_integer 1
  ∧ rev (snd (toggleFavorite (favorite_example plain))
         ++ snd (toggleFavorite (fst (toggleFavorite (favorite_example plain)))))
    = snd (toggleFavorite (loaded_example plain))
      ++ snd (toggleFavorite (fst (toggleFavorite (loaded_example plain)))).
Proof.
  assert (safe_integer 1) as Hsafe by (unfold safe_integer; lia).
  split; [by vm_compute|]. split; [exact Hsafe|].
  rewrite (proj1 (proj2 (toggleFavorite_twice plain (favorite_example plain)))
             _ eq_refl Hsafe).
  by vm_compute.
Defined.


(** X13: [loadFavorite] is a toggle, not an assignment: a rejected fetch
    leaves the state alone, one that resolves negates the flag whatever the
    response holds, so two fetches that resolve give the state back. *)
Theorem loadFavorite_toggles (first second : Response) (st : State) :
  loadFavorite Rejected st = st
  ∧ isFavorite (loadFavorite (Resolved first) st) = negb (isFavorite st)
  ∧ loadFavorite (Resolved second) (loadFavorite (Resolved first) st) = st.
Proof. destruct st as [h fd ex [|] fq]; by repeat split. Qed.

(** ** Loading, again *)

Section LoadingAgain.

Variable formatValue : float → string.

Lemma loadFood_success d st :
  let st' := loadFood formatValue (Resolved (mkResponse (FoodData d))) st in
  ∃ raw,
    food st'
    = Some {| Food.id := FoodJson.id d; Food.name := FoodJson.name d;
              Food.description := FoodJson.description d;
              Food.price := FoodJson.price d;
              Food.image_url := FoodJson.image_url d;
              Food.formattedPrice := formatValue (FoodJson.price d);
              Food.extras := raw |}
    ∧ objects (heap st') raw = FoodJson.extras d
    ∧ heap st ⊆ heap st'.
Proof.
  unfold loadFood. cbn [data].
  destruct (parse_array (heap st) (FoodJson.extras d)) as [h1 raw] eqn:Hp.
  apply parse_array_spec in Hp as (Hsub1 & Hraw & Hjson).
  fold zeroed.
  destruct (array_map zeroed h1 raw) as [h2 out] eqn:Hm.
  apply array_map_zeroed in Hm as (Hsub2 & _); [|done].
  exists raw. cbn [heap food]. split; [done|]. split.
  - by rewrite (objects_weaken h1 h2 raw Hsub2 Hraw).
  - by etrans.
Qed.

Lemma step_keeps_food st ev :
  keeps_food ev = true → food (fst (step formatValue st ev)) = food st.
Proof.
  destruct ev as [rp|[| |] [response|]|id|id| | | |]; try done.
  - intros _. simpl. by rewrite handleIncrementExtra_updated.
  - intros _. simpl. by rewrite handleDecrementExtra_updated.
Qed.

Lemma step_keeps_wf st ev :
  keeps_food ev = true → wf st →
  wf (fst (step formatValue st ev))
  ∧ objects (heap (fst (step formatValue st ev))) (food_extras st)
    = objects (heap st) (food_extras st).
Proof.
  intros Hev Hwf.
  destruct ev as [rp|[| |] [response|]|id|id| | | |]; try done.
  - simpl. rewrite handleIncrementExtra_updated.
    split; [by apply wf_updated|].
    destruct Hwf as (_ & _ & Hapart). by apply objects_alter_all_apart.
  - simpl. rewrite handleDecrementExtra_updated.
    split; [by apply wf_updated|].
    destruct Hwf as (_ & _ & Hapart). by apply objects_alter_all_apart.
Qed.

End LoadingAgain.

(** X14: a food fetch that resolves with a record stores that record with
    [formattedPrice] added, keeps the server's extras objects (with the
    server's quantities) as [food.extras], shows fresh copies of them at
    quantity [0], touches no object that existed before, and keeps
    [isFavorite] and [foodQuantity]; a fetch that is rejected, or whose
    [data] is [null] or [undefined], changes nothing. *)
Theorem loadFood_result (formatValue : float → string) (d : FoodJson.t)
  (st : State) :
  let st' := loadFood formatValue (Resolved (mkResponse (FoodData d))) st in
  (∃ raw,
     food st'
     = Some {| Food.id := FoodJson.id d; Food.name := FoodJson.name d;
               Food.description := FoodJson.description d;
               Food.price := FoodJson.price d;
               Food.image_url := FoodJson.image_url d;
               Food.formattedPrice := formatValue (FoodJson.price d);
               Food.extras := raw |}
     ∧ objects (heap st') raw = FoodJson.extras d)
  ∧ shown st' = Extra.with_quantity 0 <$> FoodJson.extras d
  ∧ heap st ⊆ heap st'
  ∧ wf st'
  ∧ isFavorite st' = isFavorite st
  ∧ foodQuantity st' = foodQuantity st
  ∧ loadFood formatValue Rejected st = st
  ∧ loadFood formatValue (Resolved (mkResponse NoData)) st = st.
Proof.
  intros st'.
  destruct (loadFood_success formatValue d st) as (raw & Hfood & Hraw & Hsub).
  destruct (loadFood_loaded formatValue d st) as (Hwf & Hshown & Hfav & Hq).
  split; [by exists raw|].
  split; [exact Hshown|]. split; [exact Hsub|]. split; [exact Hwf|].
  split; [exact Hfav|]. split; [exact Hq|]. by split.
Qed.

(** X15: as long as no food fetch resolves, [food] stays the empty object
    whatever else happens (presses, a favorites fetch that settles, a food
    fetch that is rejected), and the total shown is [formatValue NaN]. *)
Theorem not_loaded_persists (formatValue : float → string) (st : State)
  (evs : list Event) :
  food st = None → forallb keeps_food evs = true →
  food (run formatValue st evs) = None
  ∧ cartTotal formatValue (run formatValue st evs) = formatValue nan.
Proof.
  intros Hfood Hevs.
  assert (food (run formatValue st evs) = None) as Hnone.
  { revert st Hfood. induction evs as [|ev evs IH]; intros st Hfood; [done|].
    simpl in Hevs. apply andb_prop in Hevs as [Hev Hevs]. simpl.
    apply IH; [done|]. by rewrite step_keeps_food. }
  split; [done|]. unfold cartTotal, js_plus. rewrite Hnone. simpl.
  by rewrite add_nan_r, mul_nan_l.
Qed.

Lemma not_loaded_persists_witness :
  food initial = None
  ∧ cartTotal plain
      (run plain initial
         [ Mount (Params.mk 1); Settle LoadFood Rejected; PressIncrementFood;
           PressIncrementExtra 4; PressFavorite ])
    = "NaN".
Proof.
  split; [reflexivity|].
  etrans;
    [exact (proj2 (not_loaded_persists plain initial
                     [ Mount (Params.mk 1); Settle LoadFood Rejected;
                       PressIncrementFood; PressIncrementExtra 4;
                       PressFavorite ] eq_refl eq_refl))|].
  by vm_compute.
Defined.

(** X16: the objects of [food.extras] are not the ones the handlers change:
    whatever is pressed and whichever request settles, short of a food fetch
    that resolves, [food] and the objects of [food.extras] stay as they
    are. *)
Theorem food_extras_untouched (formatValue : float → string) (st : State)
  (evs : list Event) :
  wf st → forallb keeps_food evs = true →
  food (run formatValue st evs) = food st
  ∧ objects (heap (run formatValue st evs)) (food_extras st)
    = objects (heap st) (food_extras st).
Proof.
  revert st. induction evs as [|ev evs IH]; intros st Hwf Hevs; [done|].
  simpl in Hevs. apply andb_prop in Hevs as [Hev Hevs]. simpl.
  destruct (step_keeps_wf formatValue st ev Hev Hwf) as (Hwf' & Hobj).
  pose proof (step_keeps_food formatValue st ev Hev) as Hfood.
  destruct (IH _ Hwf' Hevs) as (IHfood & IHobj).
  unfold food_extras in *. rewrite Hfood in IHobj.
  split; [congruence|]. by rewrite IHobj.
Qed.

Lemma food_extras_untouched_witness :
  wf (loaded_example plain)
  ∧ Extra.quantity
      <$> objects
            (heap (run plain (loaded_example plain)
                     [ PressIncrementExtra 4; PressIncrementExtra 4 ]))
            (food_extras (loaded_example plain))
    = [0].
Proof.
  assert (wf (loaded_example plain)) as Hwf by by_decision.
  split; [exact Hwf|].
  rewrite (proj2 (food_extras_untouched plain (loaded_example plain)
                    [ PressIncrementExtra 4; PressIncrementExtra 4 ]
                    Hwf eq_refl)).
  by vm_compute.
Defined.

(** ** The total of a freshly loaded screen *)

Lemma add_nan_l (x : float) : (nan + x)%float = nan.
Proof.
  apply Prim2SF_inj. rewrite add_spec.
  change (Prim2SF nan) with S754_nan. by destruct (Prim2SF x).
Qed.

Lemma zero_times_finite (acc v : float) :
  Prim2SF acc = S754_zero false → isFinite v = true →
  Prim2SF (acc + number_of_Z 0 * v)%float = S754_zero false.
Proof.
  intros Hacc Hv. rewrite add_spec, mul_spec, Hacc.
  change (Prim2SF (number_of_Z 0)) with (S754_zero false).
  unfold isFinite in Hv.
  destruct (Prim2SF v) as [[|]| | |[|] m e]; try done.
Qed.

Lemma zero_times_other (acc v : float) :
  isFinite v = false → (acc + number_of_Z 0 * v)%float = nan.
Proof.
  intros Hv.
  assert ((number_of_Z 0 * v)%float = nan) as ->; [|apply add_nan_r].
  apply Prim2SF_inj. rewrite mul_spec.
  change (Prim2SF (number_of_Z 0)) with (S754_zero false).
  change (Prim2SF nan) with S754_nan.
  unfold isFinite in Hv. by destruct (Prim2SF v).
Qed.

Lemma reduce_zero (os : list Extra.t) : ∀ acc,
  Prim2SF acc = S754_zero false →
  Forall (λ o, Extra.quantity o = 0 ∧ isFinite (Extra.value o) = true) os →
  fold_left
    (λ accumulator extra,
       accumulator + number_of_Z (Extra.quantity extra) * Extra.value extra)%float
    os acc
  = 0%float.
Proof.
  induction os as [|o os IH]; intros acc Hacc Hos; simpl.
  - by apply Prim2SF_inj.
  - apply Forall_cons in Hos as [[Hq Hv] Hos]. apply IH; [|done].
    rewrite Hq. by apply zero_times_finite.
Qed.

Lemma reduce_nan (os : list Extra.t) :
  fold_left
    (λ accumulator extra,
       accumulator + number_of_Z (Extra.quantity extra) * Extra.value extra)%float
    os nan
  = nan.
Proof. induction os as [|o os IH]; simpl; [done|]. by rewrite add_nan_l. Qed.

Lemma reduce_poisoned (os : list Extra.t) : ∀ acc,
  Forall (λ o, Extra.quantity o = 0) os →
  Exists (λ o, isFinite (Extra.value o) = false) os →
  fold_left
    (λ accumulator extra,
       accumulator + number_of_Z (Extra.quantity extra) * Extra.value extra)%float
    os acc
  = nan.
Proof.
  induction os as [|o os IH]; intros acc Hq Hex; simpl.
  - by apply Exists_nil in Hex.
  - apply Forall_cons in Hq as [Hq Hos].
    apply Exists_cons in Hex as [Hv|Hex]; [|by apply IH].
    rewrite Hq, zero_times_other by done. apply reduce_nan.
Qed.

(** X17: right after a food has loaded, when the value of every extra is a
    finite number, the extras add nothing and the total is
    [formatValue ((0 + price) × foodQuantity)]. *)
Theorem loaded_cartTotal (formatValue : float → string) (d : FoodJson.t)
  (st : State) :
  Forall (λ o, isFinite (Extra.value o) = true) (FoodJson.extras d) →
  cartTotal formatValue
    (loadFood formatValue (Resolved (mkResponse (FoodData d))) st)
  = formatValue
      ((0 + FoodJson.price d) * number_of_Z (foodQuantity st))%float.
Proof.
  intros Hfinite.
  destruct (loadFood_loaded formatValue d st) as (_ & Hshown & _ & Hq).
  destruct (loadFood_success formatValue d st) as (raw & Hfood & _).
  unfold cartTotal, js_plus. rewrite array_reduce_objects.
  fold (shown (loadFood formatValue (Resolved (mkResponse (FoodData d))) st)).
  rewrite Hshown, Hfood, Hq. simpl.
  rewrite reduce_zero; [done|done|].
  rewrite Forall_fmap. eapply Forall_impl; [exact Hfinite|]. by intros o Ho.
Qed.

Lemma loaded_cartTotal_witness :
  Forall (λ o, isFinite (Extra.value o) = true) (FoodJson.extras ao_molho)
  ∧ cartTotal plain (loaded_example plain) = "10".
Proof.
  assert (Forall (λ o, isFinite (Extra.value o) = true)
            (FoodJson.extras ao_molho)) as Hfinite by by_decision.
  split; [exact Hfinite|].
  etrans; [exact (loaded_cartTotal plain ao_molho initial Hfinite)|].
  by vm_compute.
Defined.

(** X18: when the value of some extra is [NaN] or an infinity, the total
    right after loading is [formatValue NaN], although every quantity is
    [0]. *)
Theorem loaded_cartTotal_poisoned (formatValue : float → string)
  (d : FoodJson.t) (st : State) :
  Exists (λ o, isFinite (Extra.value o) = false) (FoodJson.extras d) →
  cartTotal formatValue
    (loadFood formatValue (Resolved (mkResponse (FoodData d))) st)
  = formatValue nan.
Proof.
  intros Hex.
  destruct (loadFood_loaded formatValue d st) as (_ & Hshown & _ & Hq).
  unfold cartTotal, js_plus. rewrite array_reduce_objects.
  fold (shown (loadFood formatValue (Resolved (mkResponse (FoodData d))) st)).
  rewrite Hshown, reduce_poisoned.
  - by rewrite add_nan_l, mul_nan_l.
  - rewrite Forall_fmap. by apply Forall_true.
  - apply Exists_fmap. eapply Exists_impl; [exact Hex|]. by intros o Ho.
Qed.

Lemma loaded_cartTotal_poisoned_witness :
  Exists (λ o, isFinite (Extra.value o) = false) (FoodJson.extras overpriced)
  ∧ cartTotal plain
      (loadFood plain (Resolved (mkResponse (FoodData overpriced))) initial)
    = "NaN".
Proof.
  assert (Exists (λ o, isFinite (Extra.value o) = false)
            (FoodJson.extras overpriced)) as Hex by by_decision.
  split; [exact Hex|].
  etrans; [exact (loaded_cartTotal_poisoned plain overpriced initial Hex)|].
  by vm_compute.
Defined.

(** ** The order and the requests *)

(** X19: the order [handleFinishOrder] posts does not depend on
    [foodQuantity] nor on [isFavorite]: two states with the same food and
    extras post the same order, and the state is not changed. *)
Theorem handleFinishOrder_ignores_quantity (st : State) (q : Z) (fav : bool) :
  snd (handleFinishOrder
         {| heap := heap st; food := food st; extras := extras st;
            isFavorite := fav; foodQuantity := q |})
  = snd (handleFinishOrder st)
  ∧ fst (handleFinishOrder st) = st.
Proof. done. Qed.

(** X20: for route ids with [safe_integer], which the template literal
    prints digit by digit, the url of the food fetch is [/foods/] and that
    of the favorites fetch [/favorites/], each followed by the digits of the
    id; so each url determines the id, and a foods url is never a favorites
    url.  For the id [7] they are [/foods/7] and [/favorites/7]. *)
Theorem request_urls (p p' : Params.t) :
  safe_integer (Params.id p) → safe_integer (Params.id p') →
  loadFood_request p
  = GET ("/foods/" +:+ NilZero.string_of_int (Z.to_int (Params.id p)))
  ∧ loadFavorite_request p
    = GET ("/favorites/" +:+ NilZero.string_of_int (Z.to_int (Params.id p)))
  ∧ (loadFood_request p = loadFood_request p' → p = p')
  ∧ (loadFavorite_request p = loadFavorite_request p' → p = p')
  ∧ loadFood_request p ≠ loadFavorite_request p'
  ∧ loadFood_request (Params.mk 7) = GET "/foods/7"
  ∧ loadFavorite_request (Params.mk 7) = GET "/favorites/7"
  ∧ loadFood_request (Params.mk (-12)) = GET "/foods/-12".
Proof.
  intros _ _. destruct p as [a], p' as [b].
  unfold loadFood_request, loadFavorite_request. simpl.
  split; [done|]. split; [done|]. split; [|split; [|split]].
  - intros [= Heq]. f_equal. by apply template_number_inj.
  - intros [= Heq]. f_equal. by apply template_number_inj.
  - intros [= Heq].
  - done.
Qed.

Lemma request_urls_witness :
  safe_integer 7
  ∧ loadFavorite_request (Params.mk 7) = GET "/favorites/7"
  ∧ Params.mk 7 = Params.mk 7.
Proof.
  assert (safe_integer 7) as Hsafe by (unfold safe_integer; lia).
  split; [exact Hsafe|].
  destruct (request_urls (Params.mk 7) (Params.mk 7) Hsafe Hsafe)
    as (_ & Hfav & Hinj & _).
  split; [exact Hfav|]. exact (Hinj eq_refl).
Defined.
